(** * Shelf-tag extraction pipeline: a shallow embedding of
      [shelf_tag_test/extract_shelf_tags.py] and its properties.

    The development follows the Python file function by function and keeps
    its names.  Conventions of the embedding:

    - A Python [str] is a [string]; its characters are the code points below
      256, so [isspace] and [isdigit] are Python's predicates restricted to
      that range.
    - A Python [int] is a [Z], and [int(s)] is taken without the
      interpreter's limit on the number of digits; [bytes] is a list of
      bytes.
    - A [dict] whose iteration order is observed (a manifest row, the
      filename-to-metadata mapping, a JSON object) is an insertion-ordered
      association list ([Dict]); the decoded archive, which is only queried,
      is a [gmap].
    - Effects are explicit: a computation yields the list of the events it
      performed (log records, HTTP attempts, sleeps, file writes) together
      with either its return value or the exception it raised ([M]).
    - What the standard library and the outside world decide is a parameter
      of the development: the JSON parser, the ZIP reader, [str()] on floats
      and containers (Section variables), the answers of the network and
      those of the local file system (arguments).  An operation on the file
      system either takes effect, and is then an event of the trace, or
      raises; what a failed operation leaves behind is not recorded.
    - Values of [exn] stand for instances of Python's [Exception]. *)

From Stdlib Require Import ZArith Ascii DecimalString DecimalZ SpecFloat.
From stdpp Require Import base option list strings gmap sorting.

Local Open Scope Z_scope.

(* ================================================================== *)
(** ** Characters and strings *)

Module Char.
Definition code (c : ascii) : N := Ascii.N_of_ascii c.

(** [str.isspace] / the regex class [\s] on code points below 256. *)
Definition isspace (c : ascii) : bool :=
  let n := code c in
  ((9 <=? n) && (n <=? 13) || (28 <=? n) && (n <=? 32)
   || (n =? 133) || (n =? 160))%N.

(** The regex class [\d] on code points below 256: the ASCII digits. *)
Definition isdigit (c : ascii) : bool :=
  let n := code c in ((48 <=? n) && (n <=? 57))%N.

Definition digit_value (c : ascii) : Z := Z.of_N (code c) - 48.

Definition newline : ascii := Ascii.ascii_of_N 10.
End Char.

Module Str.
(** [s.lstrip()] *)
Fixpoint lstrip (s : string) : string :=
  match s with
  | String c s' => if Char.isspace c then lstrip s' else s
  | EmptyString => EmptyString
  end.

(** [s.rstrip()] *)
Fixpoint rstrip (s : string) : string :=
  match s with
  | String c s' =>
      match rstrip s' with
      | EmptyString => if Char.isspace c then EmptyString else String c EmptyString
      | r => String c r
      end
  | EmptyString => EmptyString
  end.

(** [s.strip()] *)
Definition strip (s : string) : string := rstrip (lstrip s).

(** [c in s] for a one-character [c]. *)
Fixpoint mem (c : ascii) (s : string) : bool :=
  match s with
  | String c' s' => bool_decide (c' = c) || mem c s'
  | EmptyString => false
  end.

Fixpoint all (p : ascii → bool) (s : string) : bool :=
  match s with
  | String c s' => p c && all p s'
  | EmptyString => true
  end.

Definition nonempty (s : string) : bool :=
  match s with EmptyString => false | String _ _ => true end.

(** [int(s)] for a non-empty string of ASCII digits. *)
Fixpoint int_of_digits (acc : Z) (s : string) : Z :=
  match s with
  | String c s' => int_of_digits (10 * acc + Char.digit_value c) s'
  | EmptyString => acc
  end.

(** [str(n)] / [f"{n}"] for an [int]. *)
Definition of_int (n : Z) : string := NilEmpty.string_of_int (Z.to_int n).

(** Python's [<=] on [str]: lexicographic on code points. *)
Definition le (s1 s2 : string) : Prop := String.le s1 s2.

(** The part of [s] after the last occurrence of [sep], if [sep] occurs. *)
Fixpoint after_last (sep : ascii) (s : string) : option string :=
  match s with
  | EmptyString => None
  | String c s' =>
      match after_last sep s' with
      | Some t => Some t
      | None => if bool_decide (c = sep) then Some s' else None
      end
  end.

(** The longest prefix of [s] made of digits, and what follows it. *)
Fixpoint span_digits (s : string) : string * string :=
  match s with
  | String c s' =>
      if Char.isdigit c
      then let '(run, rest) := span_digits s' in (String c run, rest)
      else (EmptyString, s)
  | EmptyString => (EmptyString, EmptyString)
  end.
End Str.

(** [os.path.basename] (POSIX). *)
Definition basename (path : string) : string :=
  default path (Str.after_last "/"%char path).

(** [os.path.join(a, name)] (POSIX) for a relative [name]. *)
Definition path_join (a name : string) : string :=
  match Str.after_last "/"%char a with
  | Some EmptyString => a +:+ name
  | _ => if Str.nonempty a then a +:+ "/" +:+ name else name
  end.

Definition bytes := list Byte.byte.

(* ================================================================== *)
(** ** Insertion-ordered dictionaries with string keys *)

Module Dict.
Definition t (V : Type) : Type := list (string * V).

(** [d.get(k)] *)
Fixpoint get {V} (d : t V) (k : string) : option V :=
  match d with
  | [] => None
  | (k', v) :: d' => if bool_decide (k' = k) then Some v else get d' k
  end.

(** [k in d] *)
Definition mem {V} (d : t V) (k : string) : bool :=
  bool_decide (is_Some (get d k)).

(** [d[k] = v]: an existing key keeps its position. *)
Fixpoint set {V} (d : t V) (k : string) (v : V) : t V :=
  match d with
  | [] => [(k, v)]
  | (k', v') :: d' =>
      if bool_decide (k' = k) then (k, v) :: d' else (k', v') :: set d' k v
  end.

(** [list(d.keys())] *)
Definition keys {V} (d : t V) : list string := d.*1.
End Dict.

(* ================================================================== *)
(** ** JSON values as [json.loads] builds them *)

#[local] Set Warnings "-register-all".

Inductive json : Type :=
  | JNull                                   (* None *)
  | JBool (b : bool)
  | JInt (n : Z)
  | JFloat (f : spec_float)
  | JStr (s : string)
  | JList (l : list json)
  | JDict (d : list (string * json)).

#[local] Set Warnings "register-all".

(** Python's truth value, as tested by [or], [not] and [if]. *)
Definition truthy (v : json) : bool :=
  match v with
  | JNull => false
  | JBool b => b
  | JInt n => negb (n =? 0)
  | JFloat (S754_zero _) => false
  | JFloat _ => true
  | JStr s => Str.nonempty s
  | JList l => match l with [] => false | _ => true end
  | JDict d => match d with [] => false | _ => true end
  end.

(** [x or y] *)
Definition py_or (x y : json) : json := if truthy x then x else y.

(** [d.get(k)] on a JSON object: a missing key reads as [None]. *)
Definition json_get (d : list (string * json)) (k : string) : json :=
  default JNull (Dict.get d k).

(** [x in (None, 'null')] *)
Definition is_none_or_null (x : json) : bool :=
  match x with
  | JNull => true
  | JStr s => bool_decide (s = "null")
  | _ => false
  end.

(* ================================================================== *)
(** ** Exceptions, events and the monad of effectful computations *)

(** [OtherException] stands for the classes that derive from none of the
    classes listed before it. *)
Inductive exn : Type :=
  | HTTPError
  | URLError
  | TimeoutError
  | AttributeError
  | BadZipFile
  | OtherException (name : string).

(** The classes named by the [except] clause of [download_bytes]. *)
Definition is_network_error (e : exn) : bool :=
  match e with
  | HTTPError | URLError | TimeoutError => true
  | _ => false
  end.

Inductive level : Type := INFO | WARNING | ERROR.

(** One constructor per logging call of the source, with its arguments. *)
Inductive message : Type :=
  | MsgJsonFailed (len : nat)
  | MsgDownloadFailed (attempt max_retries : Z) (url : string) (e : exn)
  | MsgGivingUp (url : string) (e : exn)
  | MsgSkipNoUrl (field : string)
  | MsgSkipInvalidJson (field : string)
  | MsgNoData (url : string)
  | MsgZipEmpty (url : string)
  | MsgMissingInZip (filename : string)
  | MsgRowError (idx : nat) (e : exn)
  | MsgNoRows
  | MsgLoaded (n : nat)
  | MsgDone (counter : Z) (out meta_path : string).

Inductive event : Type :=
  | Log (lv : level) (m : message)
  | UrlOpen (url : string) (attempt : Z)
  | Sleep (seconds : Z)
  | WriteImage (path : string) (data : bytes)
  | AppendMeta (path : string) (line : string).

Inductive result (A : Type) : Type :=
  | Return (a : A)
  | Raise (e : exn).
Arguments Return {A} a.
Arguments Raise {A} e.

(** A computation: the events performed, then a value or an exception. *)
Definition M (A : Type) : Type := list event * result A.

#[global] Instance M_ret : MRet M := λ A a, ([], Return a).

#[global] Instance M_bind : MBind M := λ A B f m,
  match m with
  | (tr, Return a) => let '(tr', r) := f a in (tr ++ tr', r)
  | (tr, Raise e) => (tr, Raise e)
  end.

Definition emit (ev : event) : M unit := ([ev], Return tt).

Definition raise {A} (e : exn) : M A := ([], Raise e).

(** What one HTTP attempt yields. *)
Inductive response : Type :=
  | Body (b : bytes)
  | Fails (e : exn).

(** The network: the answer to the [attempt]-th request for [url]. *)
Definition network : Type := string → Z → response.

(** The operations of one row on the local file system (lines 157-170).
    The images of a row are told apart by their number, so that a row
    attempts no operation twice. *)
Inductive file_op : Type :=
  | OpenMetadata
  | SaveImage (counter : Z)
  | AppendLine (counter : Z)
  | CloseMetadata.

(** The file system as one row finds it: the exception that an operation
    raises, [None] when it succeeds. *)
Definition disk : Type := file_op → option exn.

(** One operation on the file system: it raises what the file system
    answers, or else takes effect. *)
Definition file_operation (fs : disk) (op : file_op) (effect : event)
    : M unit :=
  match fs op with
  | Some e => raise e
  | None => emit effect
  end.

(** [with open(metadata_file_path, 'a', encoding='utf-8') as meta_fp: body].
    The file is closed when the block is left, by its end or by an
    exception, and an exception raised on closing is the one that
    propagates. *)
Definition with_metadata_file {A} (fs : disk) (body : M A) : M A :=
  match fs OpenMetadata with
  | Some e => raise e
  | None =>
      match fs CloseMetadata with
      | Some e => (body.1, Raise e)
      | None => body
      end
  end.

(** The image files written and the metadata lines appended by a trace. *)
Definition images_written (tr : list event) : list (string * bytes) :=
  omap (λ ev, match ev with WriteImage p d => Some (p, d) | _ => None end) tr.

Definition lines_appended (tr : list event) : list (string * string) :=
  omap (λ ev, match ev with AppendMeta p l => Some (p, l) | _ => None end) tr.

Definition attempts_made (tr : list event) : list Z :=
  omap (λ ev, match ev with UrlOpen _ a => Some a | _ => None end) tr.

(* ================================================================== *)
(** ** The functions of [extract_shelf_tags.py] *)

(** [re.search(r"(\d+)(?=\.[^.]+$)", s)]: the text of group 1.

    The search tries each start position from the left.  At a position
    holding a digit, [\d+] takes the whole run of digits (a shorter run
    would leave a digit, not a dot, in front of the lookahead).  The
    lookahead wants a dot, then [[^.]+], then [$], which Python satisfies
    at the end of the string or just before a final newline. *)
Definition at_dollar (s : string) : bool :=
  match s with
  | EmptyString => true
  | String c EmptyString => bool_decide (c = Char.newline)
  | _ => false
  end.

Fixpoint nodots_then_dollar (s : string) : bool :=
  match s with
  | EmptyString => false
  | String c s' =>
      negb (bool_decide (c = "."%char)) && (at_dollar s' || nodots_then_dollar s')
  end.

Definition lookahead_extension (s : string) : bool :=
  match s with
  | String c s' => bool_decide (c = "."%char) && nodots_then_dollar s'
  | EmptyString => false
  end.

Fixpoint search_digits_before_extension (s : string) : option string :=
  match s with
  | EmptyString => None
  | String c s' =>
      if Char.isdigit c then
        let '(run, rest) := Str.span_digits s in
        if lookahead_extension rest then Some run
        else search_digits_before_extension s'
      else search_digits_before_extension s'
  end.

Definition parse_int_suffix_from_filename (filename : string) : option Z :=
  Str.int_of_digits 0 <$> search_digits_before_extension filename.

(** [re.sub(r"\s+", "", name)]: every run of whitespace is deleted. *)
Fixpoint normalize_field_name (name : string) : string :=
  match name with
  | String c s' =>
      if Char.isspace c then normalize_field_name s'
      else String c (normalize_field_name s')
  | EmptyString => EmptyString
  end.

(** A manifest row, [Dict[str, str]]. *)
Definition row : Type := Dict.t string.

Fixpoint first_normalized_match (items : list (string * string))
    (desired_norm : string) : option string :=
  match items with
  | [] => None
  | (k, v) :: items' =>
      if bool_decide (normalize_field_name k = desired_norm) then Some v
      else first_normalized_match items' desired_norm
  end.

Definition get_field_value (r : row) (desired_field : string) : option string :=
  if Dict.mem r desired_field then Dict.get r desired_field
  else first_normalized_match r (normalize_field_name desired_field).

(** [re.fullmatch(r"0+", s)] *)
Definition is_all_zeros (s : string) : bool :=
  Str.nonempty s && Str.all (λ c, bool_decide (c = "0"%char)) s.

(** The key of [sorted]: [(idx if idx is not None else 10**9, name)]. *)
Definition sort_key (name : string) : Z * string :=
  (default (10 ^ 9) (parse_int_suffix_from_filename name), name).

(** Python's [<] on the tuples [(int, str)]. *)
Definition tuple_ltb (a b : Z * string) : bool :=
  (a.1 <? b.1) || ((a.1 =? b.1) && String.ltb a.2 b.2).

(** [sorted(l, key=key)]: the stable arrangement of [l] by increasing key,
    computed by insertion from the right. *)
Fixpoint sorted_insert {A} (key : A → Z * string) (x : A) (l : list A) : list A :=
  match l with
  | [] => [x]
  | y :: l' =>
      if tuple_ltb (key y) (key x) then y :: sorted_insert key x l'
      else x :: l
  end.

Definition py_sorted {A} (key : A → Z * string) (l : list A) : list A :=
  foldr (sorted_insert key) [] l.

(** ["<barcode>, <source>\n"] *)
Definition metadata_line (barcode source : string) : string :=
  barcode +:+ ", " +:+ source +:+ String Char.newline EmptyString.

(** [f"{counter}.heif"] *)
Definition image_name (counter : Z) : string := Str.of_int counter +:+ ".heif".

(** The filename-to-metadata mapping, [Dict[str, Tuple[str, str]]]. *)
Definition meta : Type := Dict.t (string * string).

(** [v.strip()] and [v.get(k)] on a value of any type: only [str] has the
    first, only [dict] the second. *)
Definition strip_method (v : json) : M string :=
  match v with
  | JStr s => mret (Str.strip s)
  | _ => raise AttributeError
  end.

Definition get_method (v : json) (k : string) : M json :=
  match v with
  | JDict d => mret (json_get d k)
  | _ => raise AttributeError
  end.

(** [try: body  except Exception as e: handler(e)] *)
Definition try_except {A} (body : M A) (handler : exn → M A) : M A :=
  match body with
  | (tr, Return a) => (tr, Return a)
  | (tr, Raise e) => let '(tr', r) := handler e in (tr ++ tr', r)
  end.

(** The command-line arguments read by [main]. *)
Record arguments : Type := {
  arg_out : string;
  arg_start : Z;
  arg_zip_field : string;
  arg_json_field : string;
  arg_limit_rows : Z
}.

Section Pipeline.

#[local] Set Default Proof Using "Type".

(** [json.loads]: [None] stands for [json.JSONDecodeError]. *)
Variable json_loads : string → option json.

(** [str()] on a float, and on a list or a dict. *)
Variable str_float : spec_float → string.
Variable str_container : json → string.

(** [zipfile.ZipFile(io.BytesIO(b))]: the members in archive order, each
    with its stored name and its content, or the exception raised while
    opening or reading the archive. *)
Variable zip_members : bytes → result (list (string * bytes)).

Definition safe_json_loads (text : option string) : M json :=
  match text with
  | None => mret JNull
  | Some text =>
      let text := Str.strip text in
      if negb (Str.nonempty text) then mret JNull
      else
        match json_loads text with
        | Some v => mret v
        | None =>
            emit (Log WARNING (MsgJsonFailed (String.length text)));;
            mret JNull
        end
  end.

(** The loop [for attempt in range(1, max_retries + 1)] of [download_bytes],
    from the attempts still to make. *)
Fixpoint download_loop (net : network) (url : string) (max_retries : Z)
    (attempts : list Z) (last_err : option exn) : M (option bytes) :=
  match attempts with
  | [] =>
      match last_err with
      | Some e => emit (Log ERROR (MsgGivingUp url e))
      | None => mret tt
      end;;
      mret None
  | attempt :: attempts' =>
      emit (UrlOpen url attempt);;
      match net url attempt with
      | Body b => mret (Some b)
      | Fails e =>
          if is_network_error e then
            let wait_s := Z.min (2 ^ attempt) 10 in
            emit (Log WARNING (MsgDownloadFailed attempt max_retries url e));;
            emit (Sleep wait_s);;
            download_loop net url max_retries attempts' (Some e)
          else raise e
      end
  end.

Definition download_bytes (net : network) (url : string) (max_retries : Z)
    : M (option bytes) :=
  download_loop net url max_retries (seqZ 1 max_retries) None.

Definition extract_zip_entries (zip_bytes : bytes) : M (gmap string bytes) :=
  match zip_members zip_bytes with
  | Return members =>
      mret (foldl (λ (result : gmap string bytes) zi,
                     <[basename zi.1 := zi.2]> result) ∅ members)
  | Raise e => raise e
  end.

(** [str(v)] *)
Definition py_str (v : json) : string :=
  match v with
  | JNull => "None"
  | JBool true => "True"
  | JBool false => "False"
  | JInt n => Str.of_int n
  | JFloat f => str_float f
  | JStr s => s
  | JList _ | JDict _ => str_container v
  end.

(** The text held in [barcode] after line 141. *)
Definition barcode_text (barcode_raw : json) : string :=
  Str.strip (if is_none_or_null barcode_raw then "" else py_str barcode_raw).

(** One iteration of the loop [for obj in items] (lines 133-147). *)
Definition match_item (obj : json) (filename_to_meta : meta) : M meta :=
  match obj with
  | JDict d =>
      let uploaded := py_or (json_get d "uploaded_image") (JDict []) in
      name_raw ← get_method uploaded "image_filename";
      filename ← strip_method (py_or name_raw (JStr ""));
      if negb (Str.nonempty filename) then mret filename_to_meta
      else
        let barcode_raw := json_get d "barcode" in
        let barcode := barcode_text barcode_raw in
        if negb (Str.nonempty barcode) || is_all_zeros barcode
        then mret filename_to_meta
        else
          let source_raw := json_get d "barcode_detection_source" in
          source ← strip_method
            (if negb (is_none_or_null source_raw) then source_raw else JStr "");
          mret (Dict.set filename_to_meta filename (barcode, source))
  | _ => mret filename_to_meta
  end.

Fixpoint build_filename_to_meta (items : list json) (filename_to_meta : meta)
    : M meta :=
  match items with
  | [] => mret filename_to_meta
  | obj :: items' =>
      filename_to_meta' ← match_item obj filename_to_meta;
      build_filename_to_meta items' filename_to_meta'
  end.

(** The loop [for filename in sorted_filenames] (lines 158-170).  Saving an
    image (lines 168-169) and writing its line (line 170) are one operation
    on the file system each. *)
Fixpoint write_images (fs : disk) (sorted_filenames : list string)
    (zip_entries : gmap string bytes) (filename_to_meta : meta)
    (output_dir metadata_file_path : string) (counter : Z) : M Z :=
  match sorted_filenames with
  | [] => mret counter
  | filename :: rest =>
      match zip_entries !! filename with
      | None =>
          emit (Log WARNING (MsgMissingInZip filename));;
          write_images fs rest zip_entries filename_to_meta
            output_dir metadata_file_path counter
      | Some image_bytes =>
          let '(barcode, source) :=
            default ("", "") (Dict.get filename_to_meta filename) in
          let counter := counter + 1 in
          let new_name := image_name counter in
          let out_path := path_join output_dir new_name in
          file_operation fs (SaveImage counter)
            (WriteImage out_path image_bytes);;
          file_operation fs (AppendLine counter)
            (AppendMeta metadata_file_path (metadata_line barcode source));;
          write_images fs rest zip_entries filename_to_meta
            output_dir metadata_file_path counter
      end
  end.

Definition process_shelf_tags_row (net : network) (fs : disk) (r : row)
    (zip_url_field json_field : string) (image_counter_start : Z)
    (output_dir metadata_file_path : string) : M Z :=
  let zip_url := Str.strip (default "" (get_field_value r zip_url_field)) in
  let json_blob := get_field_value r json_field in
  items ← safe_json_loads json_blob;
  if negb (Str.nonempty zip_url) then
    emit (Log INFO (MsgSkipNoUrl zip_url_field));;
    mret image_counter_start
  else
    match items with
    | JList ((_ :: _) as objs) =>
        zip_bytes ← download_bytes net zip_url 3;
        match zip_bytes with
        | None | Some [] =>
            emit (Log ERROR (MsgNoData zip_url));;
            mret image_counter_start
        | Some zip_bytes =>
            zip_entries ← extract_zip_entries zip_bytes;
            if bool_decide (zip_entries = ∅) then
              emit (Log WARNING (MsgZipEmpty zip_url));;
              mret image_counter_start
            else
              filename_to_meta ← build_filename_to_meta objs [];
              let sorted_filenames :=
                py_sorted sort_key (Dict.keys filename_to_meta) in
              with_metadata_file fs
                (write_images fs sorted_filenames zip_entries filename_to_meta
                   output_dir metadata_file_path image_counter_start)
        end
    | _ =>
        emit (Log INFO (MsgSkipInvalidJson json_field));;
        mret image_counter_start
    end.

(** The loop [for idx, row in enumerate(rows)] of [main]; [world idx] and
    [disks idx] are the network and the file system as the row of index
    [idx] finds them. *)
Fixpoint process_rows (world : nat → network) (disks : nat → disk)
    (args : arguments)
    (metadata_file_path : string) (idx : nat) (rows : list row)
    (image_counter processed_rows : Z) : M Z :=
  match rows with
  | [] => mret image_counter
  | r :: rows' =>
      if negb (arg_limit_rows args =? 0)
         && (arg_limit_rows args <=? processed_rows)
      then mret image_counter
      else
        '(image_counter, processed_rows) ←
          try_except
            (c ← process_shelf_tags_row (world idx) (disks idx) r
                   (arg_zip_field args) (arg_json_field args)
                   image_counter (arg_out args) metadata_file_path;
             mret (c, processed_rows + 1))
            (λ e,
               emit (Log ERROR (MsgRowError idx e));;
               mret (image_counter, processed_rows));
        process_rows world disks args metadata_file_path (S idx) rows'
          image_counter processed_rows
  end.

(** [main], from the rows that [read_csv_rows] returned. *)
Definition main (world : nat → network) (disks : nat → disk)
    (args : arguments) (rows : list row) : M unit :=
  let metadata_file_path := path_join (arg_out args) "metadata.txt" in
  match rows with
  | [] => emit (Log WARNING MsgNoRows)
  | _ =>
      emit (Log INFO (MsgLoaded (length rows)));;
      image_counter ← process_rows world disks args metadata_file_path 0 rows
                        (arg_start args) 0;
      emit (Log INFO (MsgDone image_counter (arg_out args) metadata_file_path))
  end.

(* ================================================================== *)
(** ** Notions used to state the properties *)

(** The order of the sort keys: [a <= b] on the tuples [(int, str)]. *)
Definition key_le (a b : Z * string) : Prop :=
  a.1 < b.1 ∨ (a.1 = b.1 ∧ Str.le a.2 b.2).

(** [n] is the numeric suffix of [filename]: the value of the whole run of
    digits [ds] that stands immediately before the final [.<extension>]. *)
Definition numeric_suffix (filename : string) (n : Z) : Prop :=
  ∃ pre ds ext,
    filename = pre +:+ ds +:+ String "."%char ext ∧
    Str.nonempty ds = true ∧ Str.all Char.isdigit ds = true ∧
    (∀ pre' c, pre = pre' +:+ String c EmptyString → Char.isdigit c = false) ∧
    Str.nonempty ext = true ∧ Str.mem "."%char ext = false ∧
    n = Str.int_of_digits 0 ds.

(** The order claimed for two filenames met in this order: numbered ones by
    ascending number, unnumbered ones after all numbered ones, ties by
    filename text. *)
Definition numbered_first (a b : string) : Prop :=
  match parse_int_suffix_from_filename a, parse_int_suffix_from_filename b with
  | Some m, Some n => m < n ∨ (m = n ∧ Str.le a b)
  | Some _, None => True
  | None, Some _ => False
  | None, None => Str.le a b
  end.

(** The same order with an unnumbered filename counted as number [10^9]. *)
Definition sentinel_order (a b : string) : Prop :=
  match parse_int_suffix_from_filename a, parse_int_suffix_from_filename b with
  | Some m, Some n => m < n ∨ (m = n ∧ Str.le a b)
  | Some m, None => m < 10 ^ 9 ∨ (m = 10 ^ 9 ∧ Str.le a b)
  | None, Some n => 10 ^ 9 < n ∨ (10 ^ 9 = n ∧ Str.le a b)
  | None, None => Str.le a b
  end.

(** The events that write to the file system, kept in order. *)
Definition is_write (ev : event) : bool :=
  match ev with
  | WriteImage _ _ | AppendMeta _ _ => true
  | _ => false
  end.

Definition writes (tr : list event) : list event := filter is_write tr.

(** The requests and the waits of a trace, kept in order. *)
Definition is_network_event (ev : event) : bool :=
  match ev with
  | UrlOpen _ _ | Sleep _ => true
  | _ => false
  end.

Definition network_events (tr : list event) : list event :=
  filter is_network_event tr.

(** What the loop over the sorted filenames saves: for each filename found
    in the archive, in order, its content and its (barcode, source). *)
Definition saved_entries (filenames : list string)
    (zip_entries : gmap string bytes) (filename_to_meta : meta)
    : list (bytes * (string * string)) :=
  omap (λ filename,
          data ← zip_entries !! filename;
          Some (data, default ("", "") (Dict.get filename_to_meta filename)))
       filenames.

(** The writes that save [saved] when the counter stands at [counter]: for
    each entry the image under the next number, then its metadata line. *)
Fixpoint expected_writes (output_dir metadata_file_path : string)
    (counter : Z) (saved : list (bytes * (string * string))) : list event :=
  match saved with
  | [] => []
  | (data, (barcode, source)) :: saved' =>
      WriteImage (path_join output_dir (image_name (counter + 1))) data
      :: AppendMeta metadata_file_path (metadata_line barcode source)
      :: expected_writes output_dir metadata_file_path (counter + 1) saved'
  end.

(** The string of [n] characters ['0']. *)
Fixpoint zeros (n : nat) : string :=
  match n with
  | O => EmptyString
  | S n' => String "0"%char (zeros n')
  end.

(** The barcodes that are to be excluded: missing or null, the string
    ["null"], empty after trimming, or made of one or more ['0'] once
    trimmed.  The text of a barcode that is not a string is [str(barcode)]. *)
Inductive unusable_barcode : json → Prop :=
  | barcode_missing_or_null : unusable_barcode JNull
  | barcode_null_string : unusable_barcode (JStr "null")
  | barcode_blank v : Str.strip (py_str v) = "" → unusable_barcode v
  | barcode_zeros v n : Str.strip (py_str v) = zeros (S n) → unusable_barcode v.

(** The JSON cells that carry no metadata: absent, empty once trimmed,
    unparseable, or parsing to anything but a non-empty list. *)
Definition no_usable_metadata (cell : option string) : Prop :=
  match cell with
  | None => True
  | Some text =>
      Str.strip text = "" ∨ json_loads (Str.strip text) = None ∨
      ∃ v, json_loads (Str.strip text) = Some v ∧ ∀ x l, v ≠ JList (x :: l)
  end.

(** The requests and waits of a fetch whose attempts [attempts] all failed. *)
Definition failed_attempts (url : string) (attempts : list Z) : list event :=
  attempts ≫= λ attempt, [UrlOpen url attempt; Sleep (Z.min (2 ^ attempt) 10)].

(** The part of [process_shelf_tags_row] that follows the parsing of the
    JSON cell (from line 114 on). *)
Definition row_after_parse (net : network) (fs : disk)
    (zip_url zip_url_field json_field : string) (items : json)
    (image_counter_start : Z) (output_dir metadata_file_path : string) : M Z :=
  if negb (Str.nonempty zip_url) then
    emit (Log INFO (MsgSkipNoUrl zip_url_field));;
    mret image_counter_start
  else
    match items with
    | JList ((_ :: _) as objs) =>
        zip_bytes ← download_bytes net zip_url 3;
        match zip_bytes with
        | None | Some [] =>
            emit (Log ERROR (MsgNoData zip_url));;
            mret image_counter_start
        | Some zip_bytes =>
            zip_entries ← extract_zip_entries zip_bytes;
            if bool_decide (zip_entries = ∅) then
              emit (Log WARNING (MsgZipEmpty zip_url));;
              mret image_counter_start
            else
              filename_to_meta ← build_filename_to_meta objs [];
              let sorted_filenames :=
                py_sorted sort_key (Dict.keys filename_to_meta) in
              with_metadata_file fs
                (write_images fs sorted_filenames zip_entries filename_to_meta
                   output_dir metadata_file_path image_counter_start)
        end
    | _ =>
        emit (Log INFO (MsgSkipInvalidJson json_field));;
        mret image_counter_start
    end.

(** The paths of the images numbered [a+1], ..., [b], in this order. *)
Definition image_paths (output_dir : string) (a b : Z) : list string :=
  (λ n, path_join output_dir (image_name n)) <$> seqZ (a + 1) (b - a).

(** ** A small world in which the pipeline can be run *)

(** A metadata element as the JSON sidecar lists it. *)
Definition example_item (filename : string) (barcode source : json) : json :=
  JDict [("uploaded_image", JDict [("image_filename", JStr filename)]);
         ("barcode", barcode);
         ("barcode_detection_source", source)].

Definition example_zero_item : list (string * json) :=
  [("uploaded_image", JDict [("image_filename", JStr "z.jpg")]);
   ("barcode", JStr "000");
   ("barcode_detection_source", JStr "manual")].

Definition example_bad_source_item : list (string * json) :=
  [("uploaded_image", JDict [("image_filename", JStr "img_7.jpg")]);
   ("barcode", JStr "4006381333931");
   ("barcode_detection_source", JInt 5)].

Definition example_items_before : list json :=
  [example_item "img_10.jpg" (JStr "111") (JStr "ocr");
   example_item "cover.jpg" (JInt 222) JNull].

Definition example_items_after : list json :=
  [example_item "img_2.jpg" (JStr "333") (JStr " scan ")].

(** A stand-in for [json.loads] that knows four texts. *)
Definition example_json_loads (text : string) : option json :=
  if bool_decide (text = "[]") then Some (JList [])
  else if bool_decide (text = "[shelf]") then
    Some (JList (example_items_before
                 ++ JDict example_zero_item :: example_items_after))
  else if bool_decide (text = "[shelf without z.jpg]") then
    Some (JList (example_items_before ++ example_items_after))
  else if bool_decide (text = "[shelf with a numeric source]") then
    Some (JList (example_items_before
                 ++ JDict example_bad_source_item :: example_items_after))
  else None.

Definition example_str_float (f : spec_float) : string := "0.5".

Definition example_str_container (v : json) : string := "[]".

(** A stand-in for the ZIP reader: an archive that starts with the byte
    [P] holds four images, one with a directory prefix; [E] starts an
    archive without members; anything else is not an archive. *)
Definition example_zip_members (zip_bytes : bytes)
    : result (list (string * bytes)) :=
  match zip_bytes with
  | Byte.x50 :: _ =>
      Return [("shelf/img_2.jpg", [Byte.x02]); ("img_10.jpg", [Byte.x0a]);
              ("cover.jpg", [Byte.x0c]); ("z.jpg", [Byte.x00])]
  | Byte.x45 :: _ => Return []
  | _ => Raise BadZipFile
  end.

(** A network on which [ok.zip] answers at the second attempt, [empty.zip]
    at once, and every other URL times out. *)
Definition example_network : network := λ url attempt,
  if bool_decide (url = "http://shelf/ok.zip") then
    if attempt <? 2 then Fails URLError else Body [Byte.x50; Byte.x4b]
  else if bool_decide (url = "http://shelf/empty.zip") then
    Body [Byte.x45]
  else Fails TimeoutError.

Definition example_row (url json_text : string) : row :=
  [("SHELF_TAGS ", url); ("SHELF_TAGS_IMAGES_URL", json_text)].

Definition example_arguments : arguments :=
  {| arg_out := "out"; arg_start := 0; arg_zip_field := "SHELF_TAGS";
     arg_json_field := "SHELF_TAGS_IMAGES_URL"; arg_limit_rows := 0 |}.

(** ** Further notions *)

(** The log records of a trace, in order. *)
Definition log_records (tr : list event) : list (level * message) :=
  omap (λ ev, match ev with Log lv m => Some (lv, m) | _ => None end) tr.

(** The waits of a trace, in seconds. *)
Definition seconds_slept (tr : list event) : list Z :=
  omap (λ ev, match ev with Sleep s => Some s | _ => None end) tr.

(** The arguments with the cap on the number of rows removed. *)
Definition without_limit (args : arguments) : arguments :=
  {| arg_out := arg_out args; arg_start := arg_start args;
     arg_zip_field := arg_zip_field args;
     arg_json_field := arg_json_field args; arg_limit_rows := 0 |}.

(** A file system on which every operation succeeds. *)
Definition reliable : disk := λ _, None.

(** A file system on which the image number [n] cannot be saved. *)
Definition fails_at_image (n : Z) : disk := λ op,
  match op with
  | SaveImage counter =>
      if counter =? n then Some (OtherException "OSError") else None
  | _ => None
  end.


(** No row of the run raises after it has saved an image: the rows are
    followed as [process_rows] goes through them. *)
Fixpoint no_partial_row (world : nat → network) (disks : nat → disk)
    (args : arguments) (metadata_file_path : string) (idx : nat)
    (rows : list row) (image_counter processed_rows : Z) : Prop :=
  match rows with
  | [] => True
  | r :: rows' =>
      if negb (arg_limit_rows args =? 0)
         && (arg_limit_rows args <=? processed_rows)
      then True
      else
        match process_shelf_tags_row (world idx) (disks idx) r
                (arg_zip_field args) (arg_json_field args)
                image_counter (arg_out args) metadata_file_path with
        | (tr, Return c) =>
            no_partial_row world disks args metadata_file_path (S idx) rows'
              c (processed_rows + 1)
        | (tr, Raise _) =>
            images_written tr = [] ∧
            no_partial_row world disks args metadata_file_path (S idx) rows'
              image_counter processed_rows
        end
  end.

(** The source recorded for a [barcode_detection_source] that is null or a
    string. *)
Definition source_text (source_raw : json) : string :=
  match source_raw with
  | JStr s => if bool_decide (s = "null") then "" else Str.strip s
  | _ => ""
  end.

(* ================================================================== *)
(** ** Properties *)


(** *** Ordering of the sort keys *)

Lemma string_ltb_false_le (s1 s2 : string) :
  String.ltb s1 s2 = false ↔ Str.le s2 s1.
Proof.
  unfold Str.le, String.le, String.ltb, String.leb.
  rewrite (String.compare_antisym s1 s2).
  by destruct (String.compare s2 s1); simpl; split.
Qed.

Lemma string_ltb_true_le (s1 s2 : string) :
  String.ltb s1 s2 = true → Str.le s1 s2.
Proof.
  unfold Str.le, String.le, String.ltb, String.leb.
  by destruct (String.compare s1 s2).
Qed.

Lemma tuple_ltb_false (a b : Z * string) :
  tuple_ltb a b = false ↔ key_le b a.
Proof.
  unfold tuple_ltb, key_le.
  rewrite orb_false_iff, andb_false_iff, Z.ltb_ge, Z.eqb_neq, string_ltb_false_le.
  split.
  - intros [? [?|?]]; [left; lia|].
    destruct (decide (a.1 = b.1)); [right; split; [lia|done]|left; lia].
  - intros [?|[? ?]]; (split; [lia|]); [left; lia|by right].
Qed.

Lemma tuple_ltb_true (a b : Z * string) :
  tuple_ltb a b = true → key_le a b.
Proof.
  unfold tuple_ltb, key_le.
  rewrite orb_true_iff, andb_true_iff, Z.ltb_lt, Z.eqb_eq.
  intros [?|[? ?%string_ltb_true_le]]; [by left|by right].
Qed.

#[local] Instance key_le_trans : Transitive key_le.
Proof.
  intros a b c [?|[? Hab]] [?|[? Hbc]]; unfold key_le;
    [left; lia..|right; split; [lia|]].
  unfold Str.le in *. by etrans.
Qed.

#[local] Instance key_le_total : Total key_le.
Proof.
  intros a b. unfold key_le, Str.le.
  destruct (Z.lt_trichotomy a.1 b.1) as [?|[?|?]]; [by auto| |by auto].
  destruct (total String.le a.2 b.2); [left|right]; right; split; done.
Qed.

Lemma key_le_antisym (a b : Z * string) : key_le a b → key_le b a → a = b.
Proof.
  destruct a as [m s], b as [n t]. unfold key_le, Str.le; simpl.
  intros [?|[-> Hst]] [?|[? Hts]]; try lia.
  f_equal. by apply (anti_symm String.le).
Qed.

(** *** [sorted] arranges its argument by increasing key *)

Section sorted.
Context {A : Type} (key : A → Z * string).

Lemma sorted_insert_Permutation (x : A) (l : list A) :
  sorted_insert key x l ≡ₚ x :: l.
Proof.
  induction l as [|y l IH]; simpl; [done|].
  destruct (tuple_ltb (key y) (key x)); [|done].
  by rewrite IH, Permutation_swap.
Qed.

Lemma sorted_insert_StronglySorted (x : A) (l : list A) :
  StronglySorted (λ a b, key_le (key a) (key b)) l →
  StronglySorted (λ a b, key_le (key a) (key b)) (sorted_insert key x l).
Proof.
  induction 1 as [|y l Hl IH Hy]; simpl.
  { repeat constructor. }
  destruct (tuple_ltb (key y) (key x)) eqn:Hlt.
  - apply tuple_ltb_true in Hlt. constructor; [done|].
    rewrite sorted_insert_Permutation. by constructor.
  - apply tuple_ltb_false in Hlt. constructor; [by constructor|].
    constructor; [done|].
    eapply Forall_impl; [exact Hy|]. intros z Hz; simpl in *. by etrans.
Qed.

Lemma py_sorted_Permutation (l : list A) : py_sorted key l ≡ₚ l.
Proof.
  induction l as [|x l IH]; simpl; [done|].
  by rewrite sorted_insert_Permutation, IH.
Qed.

Lemma py_sorted_StronglySorted (l : list A) :
  StronglySorted (λ a b, key_le (key a) (key b)) (py_sorted key l).
Proof.
  induction l as [|x l IH]; simpl; [constructor|].
  by apply sorted_insert_StronglySorted.
Qed.

End sorted.

(** *** Strings *)

Lemma str_app_nil_l (s : string) : "" +:+ s = s.
Proof. reflexivity. Qed.

Lemma str_app_cons (c : ascii) (s t : string) :
  String c s +:+ t = String c (s +:+ t).
Proof. reflexivity. Qed.

Lemma str_app_assoc (s t u : string) : (s +:+ t) +:+ u = s +:+ t +:+ u.
Proof. induction s as [|c s IH]; [done|]. by rewrite !str_app_cons, IH. Qed.

Lemma string_snoc (c : ascii) (s : string) :
  ∃ q x, String c s = q +:+ String x "".
Proof.
  revert c. induction s as [|d s IH]; intros c.
  - by exists "", c.
  - destruct (IH d) as (q & x & ->). by exists (String c q), x.
Qed.

Lemma mem_app (c : ascii) (s t : string) :
  Str.mem c (s +:+ t) = Str.mem c s || Str.mem c t.
Proof.
  induction s as [|d s IH]; [done|].
  rewrite str_app_cons; simpl. by rewrite IH, orb_assoc.
Qed.

Lemma nonempty_true (s : string) :
  Str.nonempty s = true → ∃ c s', s = String c s'.
Proof. destruct s; [done|eauto]. Qed.

(** *** The regular expression of [parse_int_suffix_from_filename] *)

Lemma span_digits_spec (s run rest : string) :
  Str.span_digits s = (run, rest) →
  s = run +:+ rest ∧ Str.all Char.isdigit run = true ∧
  ∀ c r, rest = String c r → Char.isdigit c = false.
Proof.
  revert run rest. induction s as [|c s IH]; intros run rest; simpl.
  { intros [= <- <-]. by repeat split. }
  destruct (Char.isdigit c) eqn:Hc.
  - destruct (Str.span_digits s) as [run' rest'].
    intros [= <- <-]. destruct (IH _ _ eq_refl) as (-> & Hrun & Hrest).
    repeat split; [|done]. simpl. by rewrite Hc, Hrun.
  - intros [= <- <-]. repeat split. by intros ? ? [= <- <-].
Qed.

Lemma span_digits_app (ds rest : string) :
  Str.all Char.isdigit ds = true →
  (∀ c r, rest = String c r → Char.isdigit c = false) →
  Str.span_digits (ds +:+ rest) = (ds, rest).
Proof.
  intros Hds Hrest. induction ds as [|c ds IH]; simpl in *.
  - rewrite str_app_nil_l. destruct rest as [|c r]; [done|].
    simpl. by rewrite (Hrest c r eq_refl).
  - apply andb_true_iff in Hds as [Hc Hds]. by rewrite Hc, IH.
Qed.

(** The lookahead [[^.]+$] holds exactly of a non-empty text without dots:
    the match before a final newline adds nothing, for [[^.]] takes the
    newline too. *)
Lemma nodots_then_dollar_spec (t : string) :
  nodots_then_dollar t = Str.nonempty t && negb (Str.mem "."%char t).
Proof.
  induction t as [|c t IH]; [done|].
  simpl. rewrite IH. destruct t as [|c2 t]; simpl.
  { by rewrite orb_false_r, andb_true_r. }
  destruct t as [|c3 t]; simpl.
  - rewrite !orb_false_r, negb_orb.
    destruct (bool_decide_reflect (c2 = Char.newline)) as [->|_]; [|done].
    by rewrite (bool_decide_false (Char.newline = "."%char)).
  - symmetry. apply negb_orb.
Qed.

Lemma lookahead_extension_spec (s : string) :
  lookahead_extension s = true ↔
  ∃ ext, s = String "."%char ext ∧ Str.nonempty ext = true
         ∧ Str.mem "."%char ext = false.
Proof.
  destruct s as [|c s]; simpl.
  { split; [done|]. by intros (? & ? & _). }
  rewrite andb_true_iff, bool_decide_eq_true, nodots_then_dollar_spec,
    andb_true_iff, negb_true_iff.
  split.
  - intros (-> & ? & ?). by exists s.
  - by intros (ext & [= -> ->] & ? & ?).
Qed.

(** A run of digits cut from the front of a text reaches at most the first
    character that is not a digit. *)
Lemma digits_prefix_stops (r1 rest1 q t : string) (x : ascii) :
  Str.all Char.isdigit r1 = true →
  Char.isdigit x = false →
  r1 +:+ rest1 = q +:+ String x t →
  ∃ q2, rest1 = q2 +:+ String x t.
Proof.
  intros Hr1 Hx. revert q. induction r1 as [|d r1 IH]; intros q.
  { rewrite str_app_nil_l. intros ->. by exists q. }
  simpl in Hr1. apply andb_true_iff in Hr1 as [Hd Hr1].
  destruct q as [|d' q]; rewrite !str_app_cons.
  - rewrite str_app_nil_l. intros [= -> _]. congruence.
  - intros [= _ Heq]. by apply (IH Hr1 q).
Qed.

Lemma search_digits_before_extension_spec (s run : string) :
  search_digits_before_extension s = Some run ↔
  ∃ pre ext,
    s = pre +:+ run +:+ String "."%char ext ∧
    Str.nonempty run = true ∧ Str.all Char.isdigit run = true ∧
    (∀ pre' c, pre = pre' +:+ String c "" → Char.isdigit c = false) ∧
    Str.nonempty ext = true ∧ Str.mem "."%char ext = false.
Proof.
  split.
  - revert run. induction s as [|c s IH]; intros run; [done|].
    cbn [search_digits_before_extension].
    assert (Hrec : search_digits_before_extension s = Some run →
                   (Char.isdigit c = true →
                    ∀ r, Str.span_digits (String c s) = (r.1, r.2) →
                         lookahead_extension r.2 = false) →
      ∃ pre ext,
        String c s = pre +:+ run +:+ String "."%char ext ∧
        Str.nonempty run = true ∧ Str.all Char.isdigit run = true ∧
        (∀ pre' c, pre = pre' +:+ String c "" → Char.isdigit c = false) ∧
        Str.nonempty ext = true ∧ Str.mem "."%char ext = false).
    { intros (pre & ext & -> & Hne & Hrun & Hpre & Hext & Hdot)%IH Hfail.
      exists (String c pre), ext. rewrite str_app_cons.
      repeat split; try done.
      intros q x Hq. destruct pre as [|p pre].
      - destruct q as [|? [|??]]; [|done..].
        rewrite str_app_nil_l in Hq. injection Hq as <-.
        destruct (Char.isdigit c) eqn:Hc; [|done].
        rewrite str_app_nil_l in Hfail.
        specialize (Hfail eq_refl (String c run, String "."%char ext)).
        simpl in Hfail. rewrite Hc in Hfail.
        rewrite span_digits_app in Hfail; [|done|by intros ?? [= <- _]].
        specialize (Hfail eq_refl).
        apply not_true_iff_false in Hfail. destruct Hfail.
        by rewrite nodots_then_dollar_spec, Hext, Hdot.
      - destruct q as [|c' q]; [by destruct pre|].
        rewrite str_app_cons in Hq. injection Hq as _ Hq. by eapply Hpre. }
    destruct (Char.isdigit c) eqn:Hc; [|by intros Hs; apply Hrec].
    destruct (Str.span_digits (String c s)) as [run0 rest] eqn:Hspan.
    destruct (lookahead_extension rest) eqn:Hla.
    + intros [= <-].
      apply span_digits_spec in Hspan as (Hs & Hrun & _).
      apply lookahead_extension_spec in Hla as (ext & -> & Hext & Hdot).
      exists "", ext. rewrite str_app_nil_l. repeat split; try done.
      * destruct run0; [|done].
        rewrite str_app_nil_l in Hs. injection Hs as -> _. by vm_compute in Hc.
      * by intros [|??] ?.
    + intros Hs. apply Hrec; [done|]. intros _ [r1 r2]. simpl. congruence.
  - intros (pre & ext & -> & Hne & Hrun & Hpre & Hext & Hdot).
    assert (Hla : lookahead_extension (String "."%char ext) = true).
    { apply lookahead_extension_spec. by exists ext. }
    induction pre as [|c pre IH].
    + rewrite str_app_nil_l. apply nonempty_true in Hne as (d & run' & ->).
      rewrite str_app_cons. cbn [search_digits_before_extension].
      simpl in Hrun. apply andb_true_iff in Hrun as [Hd Hrun'].
      rewrite Hd. rewrite <-str_app_cons.
      rewrite span_digits_app; [by rewrite Hla| |by intros ?? [= <- _]].
      simpl. by rewrite Hd.
    + assert (Hpre' : ∀ pre' c0, pre = pre' +:+ String c0 "" →
                      Char.isdigit c0 = false).
      { intros q x ->. by apply (Hpre (String c q) x). }
      specialize (IH Hpre').
      rewrite str_app_cons. cbn [search_digits_before_extension].
      destruct (Char.isdigit c) eqn:Hc; [|done].
      destruct (Str.span_digits (String c (pre +:+ run +:+ String "."%char ext)))
        as [r1 rest1] eqn:Hspan.
      destruct (lookahead_extension rest1) eqn:Hla1; [|done].
      exfalso.
      apply span_digits_spec in Hspan as (Hs & Hr1 & _).
      apply lookahead_extension_spec in Hla1 as (e & -> & _ & He).
      destruct (string_snoc c pre) as (q & x & Hq).
      pose proof (Hpre q x Hq) as Hx.
      rewrite <-str_app_cons, Hq, str_app_assoc, str_app_cons, str_app_nil_l in Hs.
      symmetry in Hs.
      apply digits_prefix_stops in Hs as (q2 & Hq2); [|done..].
      destruct q2 as [|d q2].
      * rewrite str_app_nil_l in Hq2. injection Hq2 as <- ->.
        rewrite mem_app in He. simpl in He.
        by rewrite orb_true_r in He.
      * rewrite str_app_cons in Hq2. injection Hq2 as <- ->.
        rewrite !mem_app in He. simpl in He. rewrite !mem_app in He.
        simpl in He. by rewrite !orb_true_r in He.
Qed.

Lemma parse_int_suffix_from_filename_spec (filename : string) (n : Z) :
  parse_int_suffix_from_filename filename = Some n ↔ numeric_suffix filename n.
Proof.
  unfold parse_int_suffix_from_filename, numeric_suffix.
  rewrite fmap_Some. split.
  - intros (run & Hrun & ->).
    apply search_digits_before_extension_spec in Hrun
      as (pre & ext & ? & ? & ? & ? & ? & ?).
    by exists pre, run, ext.
  - intros (pre & ds & ext & ? & ? & ? & ? & ? & ? & ->).
    exists ds. split; [|done].
    apply search_digits_before_extension_spec. by exists pre, ext.
Qed.

(** *** The processing order *)

Lemma sentinel_order_key_le (a b : string) :
  sentinel_order a b ↔ key_le (sort_key a) (sort_key b).
Proof.
  unfold sentinel_order, key_le, sort_key.
  destruct (parse_int_suffix_from_filename a),
    (parse_int_suffix_from_filename b); simpl; try reflexivity.
  split; [by right|]. intros [Hlt|[_ ?]]; [|done].
  by apply Z.lt_irrefl in Hlt.
Qed.

Lemma sort_key_order_antisym :
  AntiSymm (=) (λ a b : string, key_le (sort_key a) (sort_key b)).
Proof.
  intros a b Hab Hba.
  pose proof (key_le_antisym _ _ Hab Hba) as Heq.
  unfold sort_key in Heq. by injection Heq.
Qed.

Lemma sorted_filenames_StronglySorted (names : list string) :
  StronglySorted sentinel_order (py_sorted sort_key names).
Proof.
  pose proof (py_sorted_StronglySorted sort_key names) as Hs.
  induction Hs as [|a l _ IH Ha]; constructor; [done|].
  eapply Forall_impl; [exact Ha|]. intros b. apply sentinel_order_key_le.
Qed.

(** The order does not depend on the order in which the names arrive. *)
Lemma sorted_filenames_Permutation (names names' : list string) :
  names ≡ₚ names' → py_sorted sort_key names = py_sorted sort_key names'.
Proof.
  intros Hp.
  apply (@StronglySorted_unique _ _ sort_key_order_antisym);
    [apply py_sorted_StronglySorted..|].
  by rewrite !py_sorted_Permutation.
Qed.

(** *** Traces of the stages of a row *)

Lemma bind_unfold {A B} (m : M A) (f : A → M B) :
  m ≫= f =
  match m with
  | (tr, Return a) => (tr ++ (f a).1, (f a).2)
  | (tr, Raise e) => (tr, Raise e)
  end.
Proof. destruct m as [tr [a|e]]; [|done]. simpl. by destruct (f a). Qed.

Lemma writes_app (tr1 tr2 : list event) :
  writes (tr1 ++ tr2) = writes tr1 ++ writes tr2.
Proof. apply filter_app. Qed.

Lemma network_events_app (tr1 tr2 : list event) :
  network_events (tr1 ++ tr2) = network_events tr1 ++ network_events tr2.
Proof. apply filter_app. Qed.

Lemma writes_cons (ev : event) (tr : list event) :
  writes (ev :: tr) = if is_write ev then ev :: writes tr else writes tr.
Proof. unfold writes. rewrite filter_cons. by destruct (is_write ev). Qed.

Lemma network_events_cons (ev : event) (tr : list event) :
  network_events (ev :: tr)
  = if is_network_event ev then ev :: network_events tr else network_events tr.
Proof.
  unfold network_events. rewrite filter_cons. by destruct (is_network_event ev).
Qed.

Lemma safe_json_loads_returns (text : option string) :
  ∃ tr v, safe_json_loads text = (tr, Return v) ∧
          writes tr = [] ∧ network_events tr = [].
Proof.
  unfold safe_json_loads. destruct text as [text|]; [|by eexists _, _].
  destruct (Str.nonempty (Str.strip text)); simpl; [|by eexists _, _].
  destruct (json_loads (Str.strip text)); by eexists _, _.
Qed.

Lemma download_loop_writes net url max_retries attempts last_err :
  writes (download_loop net url max_retries attempts last_err).1 = [].
Proof.
  revert last_err. induction attempts as [|a attempts IH]; intros last_err.
  { by destruct last_err. }
  cbn [download_loop]. rewrite bind_unfold. simpl.
  destruct (net url a) as [b|e]; [done|].
  destruct (is_network_error e); [|done].
  specialize (IH (Some e)).
  by destruct (download_loop net url max_retries attempts (Some e)).
Qed.

Lemma download_bytes_writes net url max_retries :
  writes (download_bytes net url max_retries).1 = [].
Proof. apply download_loop_writes. Qed.

Lemma extract_zip_entries_trace zip_bytes :
  (extract_zip_entries zip_bytes).1 = [].
Proof. unfold extract_zip_entries. by destruct (zip_members zip_bytes). Qed.

Lemma strip_method_trace v : (strip_method v).1 = [].
Proof. by destruct v. Qed.

Lemma get_method_trace v k : (get_method v k).1 = [].
Proof. by destruct v. Qed.

Lemma bind_trace_nil {A B} (m : M A) (f : A → M B) :
  m.1 = [] → (∀ a, (f a).1 = []) → (m ≫= f).1 = [].
Proof.
  rewrite bind_unfold. destruct m as [tr [a|e]]; simpl; [|done].
  intros -> Hf. apply Hf.
Qed.

Lemma match_item_trace obj m : (match_item obj m).1 = [].
Proof.
  destruct obj as [| | | | | |d]; try done.
  unfold match_item.
  apply bind_trace_nil; [apply get_method_trace|intros name_raw].
  apply bind_trace_nil; [apply strip_method_trace|intros filename].
  destruct (negb (Str.nonempty filename)); [done|].
  destruct (_ || _); [done|].
  by apply bind_trace_nil; [apply strip_method_trace|].
Qed.

Lemma build_filename_to_meta_trace items m :
  (build_filename_to_meta items m).1 = [].
Proof.
  revert m. induction items as [|obj items IH]; intros m; [done|].
  cbn [build_filename_to_meta].
  by apply bind_trace_nil; [apply match_item_trace|].
Qed.

Lemma file_operation_cases (fs : disk) (op : file_op) (effect : event) :
  (fs op = None ∧ file_operation fs op effect = ([effect], Return tt)) ∨
  (∃ e, fs op = Some e ∧ file_operation fs op effect = ([], Raise e)).
Proof.
  unfold file_operation. destruct (fs op) as [e|]; [right; by exists e|by left].
Qed.

Lemma with_metadata_file_cases {A} (fs : disk) (body : M A) :
  (fs OpenMetadata = None ∧ fs CloseMetadata = None ∧
   with_metadata_file fs body = body) ∨
  (∃ e, fs OpenMetadata = Some e ∧
        with_metadata_file fs body = ([], Raise e)) ∨
  (∃ e, fs OpenMetadata = None ∧ fs CloseMetadata = Some e ∧
        with_metadata_file fs body = (body.1, Raise e)).
Proof.
  unfold with_metadata_file.
  destruct (fs OpenMetadata) as [e|]; [right; left; by exists e|].
  destruct (fs CloseMetadata) as [e|]; [right; right; by exists e|by left].
Qed.

(** The loop saves the entries found in the archive one after the other,
    each image followed by its line, until it is through or an operation
    on the file system raises; [half] is then the image left without its
    line, if there is one. *)
Lemma write_images_spec fs filenames zip_entries m out mp counter :
  ∃ tr res saved half,
    write_images fs filenames zip_entries m out mp counter = (tr, res) ∧
    network_events tr = [] ∧
    writes tr = expected_writes out mp counter saved ++ half ∧
    (half = [] ∨
     ∃ data, half = [WriteImage
                       (path_join out (image_name
                          (counter + Z.of_nat (length saved) + 1))) data]) ∧
    match res with
    | Return c =>
        saved = saved_entries filenames zip_entries m ∧ half = [] ∧
        c = counter + Z.of_nat (length saved)
    | Raise e => ∃ op, fs op = Some e
    end.
Proof.
  revert counter. induction filenames as [|f filenames IH]; intros counter.
  { exists [], (Return counter), [], []. simpl. rewrite Z.add_0_r.
    repeat split. by left. }
  cbn [write_images]. unfold saved_entries. cbn [omap list_omap].
  fold (saved_entries filenames zip_entries m).
  destruct (zip_entries !! f) as [data|]; simpl.
  - destruct (default ("", "") (Dict.get m f)) as [barcode source].
    rewrite bind_unfold.
    destruct (file_operation_cases fs (SaveImage (counter + 1))
                (WriteImage (path_join out (image_name (counter + 1))) data))
      as [[_ ->]|(e & He & ->)].
    2: { exists [], (Raise e), [], []. repeat split; [by left|by eexists]. }
    rewrite bind_unfold.
    destruct (file_operation_cases fs (AppendLine (counter + 1))
                (AppendMeta mp (metadata_line barcode source)))
      as [[_ ->]|(e & He & ->)].
    2: { eexists _, (Raise e), [], [_]. simpl. rewrite Z.add_0_r.
         repeat split; [right; by eexists|by eexists]. }
    destruct (IH (counter + 1)) as (tr & res & saved & half & -> & Hn & Hw & Hh & Hres).
    exists (WriteImage (path_join out (image_name (counter + 1))) data
            :: AppendMeta mp (metadata_line barcode source) :: tr),
      res, ((data, (barcode, source)) :: saved), half.
    split; [done|]. split; [by rewrite !network_events_cons|].
    split; [rewrite !writes_cons; simpl; by rewrite Hw|].
    split.
    { destruct Hh as [->|(d & ->)]; [by left|right]. exists d.
      do 4 f_equal. cbn [length]. lia. }
    destruct res as [c|e]; [|done].
    destruct Hres as (-> & -> & ->). repeat split. cbn [length]. lia.
  - destruct (IH counter) as (tr & res & saved & half & -> & Hn & Hw & Hh & Hres).
    by exists (Log WARNING (MsgMissingInZip f) :: tr), res, saved, half.
Qed.

(** *** The shape of one row *)

Lemma process_shelf_tags_row_unfold net fs r zf jf start out mp :
  process_shelf_tags_row net fs r zf jf start out mp =
  items ← safe_json_loads (get_field_value r jf);
  row_after_parse net fs (Str.strip (default "" (get_field_value r zf)))
    zf jf items start out mp.
Proof. reflexivity. Qed.

(** A row is skipped, or it raises before it opens the metadata file, or it
    reaches the block that saves the images. *)
Lemma row_after_parse_cases net fs zip_url zf jf items start out mp :
  (∃ tr, row_after_parse net fs zip_url zf jf items start out mp
         = (tr, Return start) ∧ writes tr = []) ∨
  (∃ tr e, row_after_parse net fs zip_url zf jf items start out mp
           = (tr, Raise e) ∧ writes tr = []) ∨
  (∃ tr0 x objs zb zip_entries m,
     items = JList (x :: objs) ∧ Str.nonempty zip_url = true ∧
     download_bytes net zip_url 3 = (tr0, Return (Some zb)) ∧ zb ≠ [] ∧
     extract_zip_entries zb = ([], Return zip_entries) ∧ zip_entries ≠ ∅ ∧
     build_filename_to_meta (x :: objs) [] = ([], Return m) ∧
     writes tr0 = [] ∧
     row_after_parse net fs zip_url zf jf items start out mp
     = (tr0 ++ (with_metadata_file fs
                  (write_images fs (py_sorted sort_key (Dict.keys m))
                     zip_entries m out mp start)).1,
        (with_metadata_file fs
           (write_images fs (py_sorted sort_key (Dict.keys m))
              zip_entries m out mp start)).2)).
Proof.
  unfold row_after_parse.
  destruct (Str.nonempty zip_url) eqn:Hurl; simpl; [|left; by eexists].
  destruct items as [| | | | |[|x objs]|]; try (left; by eexists).
  rewrite bind_unfold.
  pose proof (download_bytes_writes net zip_url 3) as Hd.
  destruct (download_bytes net zip_url 3) as [tr0 [[zb|]|e]] eqn:Hdl;
    simpl in Hd;
    [| |right; left; by eexists _, _].
  2: { left. eexists. split; [done|]. by rewrite writes_app, Hd. }
  destruct zb as [|b zb].
  { left. eexists. split; [done|]. by rewrite writes_app, Hd. }
  rewrite bind_unfold.
  pose proof (extract_zip_entries_trace (b :: zb)) as Hz.
  destruct (extract_zip_entries (b :: zb)) as [trz [zip_entries|e]] eqn:Hze;
    simpl in Hz; subst trz;
    [|right; left; eexists _, _; split; [done|by rewrite writes_app, Hd]].
  destruct (bool_decide_reflect (zip_entries = ∅)) as [->|Hne].
  { left. eexists. split; [done|]. by rewrite !writes_app, Hd. }
  rewrite bind_unfold.
  pose proof (build_filename_to_meta_trace (x :: objs) []) as Hb.
  destruct (build_filename_to_meta (x :: objs) []) as [trb [m|e]] eqn:Hbm;
    simpl in Hb; subst trb;
    [|right; left; eexists _, _; split; [done|by rewrite !writes_app, Hd]].
  right; right. exists tr0, x, objs, (b :: zb), zip_entries, m.
  by repeat split.
Qed.

(** The block that saves the images: the loop inside the [with]. *)
Lemma with_metadata_file_writes fs filenames zip_entries m out mp counter :
  ∃ saved half,
    writes (with_metadata_file fs
              (write_images fs filenames zip_entries m out mp counter)).1
    = expected_writes out mp counter saved ++ half ∧
    (half = [] ∨
     ∃ data, half = [WriteImage
                       (path_join out (image_name
                          (counter + Z.of_nat (length saved) + 1))) data]) ∧
    match (with_metadata_file fs
             (write_images fs filenames zip_entries m out mp counter)).2 with
    | Return c =>
        saved = saved_entries filenames zip_entries m ∧ half = [] ∧
        c = counter + Z.of_nat (length saved)
    | Raise e => ∃ op, fs op = Some e
    end.
Proof.
  destruct (write_images_spec fs filenames zip_entries m out mp counter)
    as (tr & res & saved & half & Heq & _ & Hw & Hh & Hres).
  destruct (with_metadata_file_cases fs
              (write_images fs filenames zip_entries m out mp counter))
    as [(_ & _ & ->)|[(e & He & ->)|(e & _ & He & ->)]]; rewrite ?Heq; simpl.
  - by exists saved, half.
  - exists [], []. repeat split; [by left|by eexists].
  - exists saved, half. repeat split; [done..|by eexists].
Qed.

(** The writes of a row: for each entry saved, its image and its line; then
    at most one image without its line, when the row raises. *)
Lemma process_shelf_tags_row_writes net fs r zf jf start out mp :
  ∃ saved half,
    writes (process_shelf_tags_row net fs r zf jf start out mp).1
    = expected_writes out mp start saved ++ half ∧
    (half = [] ∨
     ∃ data, half = [WriteImage
                       (path_join out (image_name
                          (start + Z.of_nat (length saved) + 1))) data]) ∧
    match (process_shelf_tags_row net fs r zf jf start out mp).2 with
    | Return c => half = [] ∧ c = start + Z.of_nat (length saved)
    | Raise e => (saved = [] ∧ half = []) ∨ ∃ op, fs op = Some e
    end.
Proof.
  rewrite process_shelf_tags_row_unfold, bind_unfold.
  destruct (safe_json_loads_returns (get_field_value r jf))
    as (trj & items & -> & Hj & _).
  destruct (row_after_parse_cases net fs
              (Str.strip (default "" (get_field_value r zf)))
              zf jf items start out mp)
    as [(tr & -> & Hw)|[(tr & e & -> & Hw)|
        (tr0 & x & objs & zb & ze & m & _ & _ & _ & _ & _ & _ & _ & Hw0
         & ->)]]; simpl; rewrite ?writes_app, Hj.
  - exists [], []. rewrite Hw, Z.add_0_r. repeat split. by left.
  - exists [], []. rewrite Hw. repeat split; by left.
  - destruct (with_metadata_file_writes fs (py_sorted sort_key (Dict.keys m))
                ze m out mp start) as (saved & half & Hw & Hh & Hres).
    exists saved, half. rewrite Hw0, Hw. repeat split; [done|].
    destruct (with_metadata_file _ _).2 as [c|e]; [|by right].
    by destruct Hres as (_ & -> & ->).
Qed.

(** *** Images and metadata lines of a trace *)

Lemma images_written_app tr1 tr2 :
  images_written (tr1 ++ tr2) = images_written tr1 ++ images_written tr2.
Proof. apply omap_app. Qed.

Lemma lines_appended_app tr1 tr2 :
  lines_appended (tr1 ++ tr2) = lines_appended tr1 ++ lines_appended tr2.
Proof. apply omap_app. Qed.

Lemma images_written_writes tr : images_written (writes tr) = images_written tr.
Proof.
  induction tr as [|ev tr IH]; [done|].
  rewrite writes_cons. by destruct ev; simpl; rewrite ?IH.
Qed.

Lemma lines_appended_writes tr : lines_appended (writes tr) = lines_appended tr.
Proof.
  induction tr as [|ev tr IH]; [done|].
  rewrite writes_cons. by destruct ev; simpl; rewrite ?IH.
Qed.

Lemma images_written_expected out mp counter saved :
  images_written (expected_writes out mp counter saved)
  = zip ((λ n, path_join out (image_name n))
           <$> seqZ (counter + 1) (Z.of_nat (length saved)))
        saved.*1.
Proof.
  revert counter. induction saved as [|[data [b s]] saved IH]; intros counter.
  { done. }
  cbn [expected_writes length]. rewrite Nat2Z.inj_succ, seqZ_cons by lia.
  simpl. rewrite IH. by rewrite Z.pred_succ, <-Z.add_1_r.
Qed.

Lemma lines_appended_expected out mp counter saved :
  lines_appended (expected_writes out mp counter saved)
  = (λ e, (mp, metadata_line e.2.1 e.2.2)) <$> saved.
Proof.
  revert counter. induction saved as [|[data [b s]] saved IH]; intros counter.
  { done. }
  simpl. by rewrite IH.
Qed.

Lemma saved_entries_contents filenames zip_entries m :
  (saved_entries filenames zip_entries m).*1
  = omap (λ filename, zip_entries !! filename) filenames.
Proof.
  unfold saved_entries. induction filenames as [|f filenames IH]; [done|].
  cbn [omap list_omap]. destruct (zip_entries !! f); simpl; [|done].
  f_equal. exact IH.
Qed.

(** The contents saved by the loop are those of the filenames found in the
    archive, in the order of the list: all of them when the loop returns,
    the first ones when it raises. *)
Lemma write_images_order fs filenames zip_entries m out mp counter :
  (images_written
     (write_images fs filenames zip_entries m out mp counter).1).*2
  `prefix_of` omap (λ filename, zip_entries !! filename) filenames ∧
  (∀ c, (write_images fs filenames zip_entries m out mp counter).2 = Return c →
        (images_written
           (write_images fs filenames zip_entries m out mp counter).1).*2
        = omap (λ filename, zip_entries !! filename) filenames).
Proof.
  revert counter. induction filenames as [|f filenames IH]; intros counter.
  { done. }
  cbn [write_images omap list_omap].
  destruct (zip_entries !! f) as [data|]; simpl.
  2: { destruct (IH counter) as [Hp He].
       destruct (write_images fs filenames zip_entries m out mp counter)
         as [tr res]. done. }
  destruct (default ("", "") (Dict.get m f)) as [barcode source].
  rewrite bind_unfold.
  destruct (file_operation_cases fs (SaveImage (counter + 1))
              (WriteImage (path_join out (image_name (counter + 1))) data))
    as [[_ ->]|(e & He & ->)]; simpl.
  2: { split; [apply prefix_nil|done]. }
  rewrite bind_unfold.
  destruct (file_operation_cases fs (AppendLine (counter + 1))
              (AppendMeta mp (metadata_line barcode source)))
    as [[_ ->]|(e & He & ->)]; simpl.
  2: { split; [apply prefix_cons, prefix_nil|done]. }
  destruct (IH (counter + 1)) as [Hp Heq].
  destruct (write_images fs filenames zip_entries m out mp (counter + 1))
    as [tr res]. simpl in *.
  split; [by apply prefix_cons|]. intros c Hc. f_equal. by apply (Heq c).
Qed.

(** C1 (as amended): the filenames are processed by ascending numeric suffix,
    the numeric suffix being the value of the run of digits that stands
    immediately before the final extension; a filename without such a suffix
    is ordered as if its number were 10^9, hence after every numbered
    filename whose number is below 10^9; ties break by filename text.  The
    order is a rearrangement of the names that does not depend on their
    order of arrival; img_2.jpg, img_10.jpg, cover.jpg are processed in
    this order; and the images are saved in the order of the sorted list,
    the filenames missing from the archive being passed over: all of them
    when the loop returns, the first of them when an operation on the file
    system raises. *)
Theorem processing_order_sentinel :
  (∀ filename n,
     parse_int_suffix_from_filename filename = Some n
     ↔ numeric_suffix filename n) ∧
  (∀ names,
     py_sorted sort_key names ≡ₚ names ∧
     StronglySorted sentinel_order (py_sorted sort_key names)) ∧
  (∀ names,
     names ≡ₚ ["img_2.jpg"; "img_10.jpg"; "cover.jpg"] →
     py_sorted sort_key names = ["img_2.jpg"; "img_10.jpg"; "cover.jpg"]) ∧
  (∀ fs names zip_entries m out mp counter,
     (images_written
        (write_images fs (py_sorted sort_key names) zip_entries m
           out mp counter).1).*2
     `prefix_of`
       omap (λ filename, zip_entries !! filename) (py_sorted sort_key names) ∧
     ∀ counter_end,
       (write_images fs (py_sorted sort_key names) zip_entries m
          out mp counter).2 = Return counter_end →
       (images_written
          (write_images fs (py_sorted sort_key names) zip_entries m
             out mp counter).1).*2
       = omap (λ filename, zip_entries !! filename)
           (py_sorted sort_key names)).
Proof.
  split; [exact parse_int_suffix_from_filename_spec|]. split; [|split].
  - intros names. split;
      [apply py_sorted_Permutation|apply sorted_filenames_StronglySorted].
  - intros names Hp. by rewrite (sorted_filenames_Permutation _ _ Hp).
  - intros. apply write_images_order.
Qed.


(** *** Image names *)

Lemma of_int_inj (n n' : Z) : Str.of_int n = Str.of_int n' → n = n'.
Proof.
  unfold Str.of_int. intros H. apply DecimalZ.to_int_inj.
  apply (f_equal NilEmpty.int_of_string) in H.
  rewrite !NilEmpty.isi in H. by injection H.
Qed.

Lemma str_length_app (s t : string) :
  String.length (s +:+ t) = (String.length s + String.length t)%nat.
Proof. induction s as [|c s IH]; simpl; [done|]. by rewrite IH. Qed.

Lemma str_app_inj_r (s s' t : string) : s +:+ t = s' +:+ t → s = s'.
Proof.
  revert s'. induction s as [|c s IH]; intros [|c' s'] H; simpl in H.
  - done.
  - apply (f_equal String.length) in H. simpl in H.
    rewrite !str_length_app in H. simpl in H. lia.
  - apply (f_equal String.length) in H. simpl in H.
    rewrite !str_length_app in H. simpl in H. lia.
  - injection H as -> H. f_equal. by apply IH.
Qed.

Lemma image_name_inj (n n' : Z) : image_name n = image_name n' → n = n'.
Proof. unfold image_name. intros H%str_app_inj_r. by apply of_int_inj. Qed.

Lemma path_join_prefix (a : string) :
  ∃ prefix, ∀ name, path_join a name = prefix +:+ name.
Proof.
  unfold path_join. destruct (Str.after_last "/"%char a) as [[|??]|].
  - by exists a.
  - destruct (Str.nonempty a); [exists (a +:+ "/")|by exists ""].
    intros name. by rewrite str_app_assoc.
  - destruct (Str.nonempty a); [exists (a +:+ "/")|by exists ""].
    intros name. by rewrite str_app_assoc.
Qed.

Lemma image_path_inj (out : string) (n n' : Z) :
  path_join out (image_name n) = path_join out (image_name n') → n = n'.
Proof.
  destruct (path_join_prefix out) as [prefix Hp]. rewrite !Hp.
  intros H. apply image_name_inj. by eapply (inj (String.app prefix)).
Qed.

Lemma elem_of_image_paths (out : string) (a b : Z) (p : string) :
  p ∈ image_paths out a b ↔
  ∃ n, p = path_join out (image_name n) ∧ a < n ≤ b.
Proof.
  unfold image_paths. rewrite list_elem_of_fmap.
  split; intros (n & -> & Hn); exists n; (split; [done|]).
  - apply elem_of_seqZ in Hn. lia.
  - apply elem_of_seqZ. lia.
Qed.

Lemma image_paths_lookup (out : string) (a b : Z) (i : nat) (p : string) :
  image_paths out a b !! i = Some p ↔
  p = path_join out (image_name (a + 1 + Z.of_nat i)) ∧ a + Z.of_nat i < b.
Proof.
  unfold image_paths. rewrite list_lookup_fmap, fmap_Some. split.
  - intros (n & [-> ?]%lookup_seqZ & ->). split; [done|lia].
  - intros [-> ?]. eexists. split; [|done]. apply lookup_seqZ. lia.
Qed.

Lemma image_paths_app (out : string) (a b c : Z) :
  a ≤ b → b ≤ c →
  image_paths out a b ++ image_paths out b c = image_paths out a c.
Proof.
  intros Hab Hbc. unfold image_paths. rewrite <-fmap_app.
  replace (c - a) with ((b - a) + (c - b)) by lia.
  rewrite seqZ_app by lia. do 3 f_equal. lia.
Qed.

Lemma image_paths_nil (out : string) (a : Z) : image_paths out a a = [].
Proof. unfold image_paths. by rewrite Z.sub_diag. Qed.

Lemma image_paths_NoDup (out : string) (a b : Z) : NoDup (image_paths out a b).
Proof.
  unfold image_paths. apply NoDup_fmap_2_strong; [|apply NoDup_seqZ].
  intros n n' _ _. apply image_path_inj.
Qed.

Lemma expected_writes_app out mp counter saved1 saved2 :
  expected_writes out mp counter (saved1 ++ saved2)
  = expected_writes out mp counter saved1
    ++ expected_writes out mp (counter + Z.of_nat (length saved1)) saved2.
Proof.
  revert counter. induction saved1 as [|[data [b s]] saved1 IH]; intros counter.
  { simpl. by rewrite Z.add_0_r. }
  simpl. rewrite IH. do 4 f_equal. lia.
Qed.

Lemma image_paths_snoc (out : string) (a b : Z) :
  a ≤ b →
  image_paths out a b ++ [path_join out (image_name (b + 1))]
  = image_paths out a (b + 1).
Proof.
  intros Hab. rewrite <-(image_paths_app out a b (b + 1)) by lia. f_equal.
  unfold image_paths. by replace (b + 1 - b) with 1 by lia.
Qed.

(** The image files of a row are numbered from the start of the row on,
    whether the row returns or raises; a row that returns, returns the
    number of its last image; a row that raises an exception which does not
    come from the file system has written nothing. *)
Lemma row_image_paths net fs r zf jf start out mp tr res :
  process_shelf_tags_row net fs r zf jf start out mp = (tr, res) →
  (images_written tr).*1
  = image_paths out start (start + Z.of_nat (length (images_written tr))) ∧
  (length (lines_appended tr) ≤ length (images_written tr))%nat ∧
  Forall (λ line, line.1 = mp) (lines_appended tr) ∧
  match res with
  | Return counter_end =>
      counter_end = start + Z.of_nat (length (images_written tr)) ∧
      length (lines_appended tr) = length (images_written tr) ∧
      ∃ saved, writes tr = expected_writes out mp start saved ∧
               length saved = length (images_written tr)
  | Raise e => writes tr = [] ∨ ∃ op, fs op = Some e
  end.
Proof.
  intros Hrun.
  destruct (process_shelf_tags_row_writes net fs r zf jf start out mp)
    as (saved & half & Hw & Hhalf & Hres).
  rewrite Hrun in Hw, Hres. simpl in Hw, Hres.
  assert (Hl : lines_appended tr
               = (λ e, (mp, metadata_line e.2.1 e.2.2)) <$> saved).
  { rewrite <-lines_appended_writes, Hw, lines_appended_app,
      lines_appended_expected.
    destruct Hhalf as [->|(data & ->)]; apply app_nil_r. }
  assert (Hi : (images_written tr).*1
               = image_paths out start (start + Z.of_nat (length saved))
                 ++ (images_written half).*1).
  { rewrite <-images_written_writes, Hw, images_written_app,
      images_written_expected, fmap_app. f_equal.
    unfold image_paths.
    replace (start + Z.of_nat (length saved) - start)
      with (Z.of_nat (length saved)) by lia.
    apply fst_zip. rewrite !length_fmap, length_seqZ. lia. }
  assert (Hlen : length (images_written tr)
                 = (length saved + length half)%nat).
  { rewrite <-(length_fmap fst), Hi, length_app.
    unfold image_paths. rewrite !length_fmap, length_seqZ.
    destruct Hhalf as [->|(data & ->)]; simpl; lia. }
  split; [|split; [|split]].
  - rewrite Hi, Hlen.
    destruct Hhalf as [->|(data & ->)]; simpl.
    + by rewrite app_nil_r, Nat.add_0_r.
    + rewrite image_paths_snoc by lia. f_equal. lia.
  - rewrite Hl, length_fmap, Hlen. lia.
  - rewrite Hl. by apply Forall_fmap, Forall_true.
  - destruct res as [c|e].
    + destruct Hres as [-> ->]. rewrite app_nil_r in Hw. simpl in Hlen.
      rewrite Hl, length_fmap, Hlen, Nat.add_0_r.
      repeat split. exists saved. by rewrite Nat.add_0_r in Hlen.
    + destruct Hres as [[-> ->]|Hop]; [left|by right]. by rewrite Hw.
Qed.

(** *** The driver *)

Lemma process_rows_step world disks args mp idx r rows c p :
  arg_limit_rows args = 0 ∨ p < arg_limit_rows args →
  process_rows world disks args mp idx (r :: rows) c p =
  match process_shelf_tags_row (world idx) (disks idx) r (arg_zip_field args)
          (arg_json_field args) c (arg_out args) mp with
  | (tr, Return c') =>
      let '(tr', res) :=
        process_rows world disks args mp (S idx) rows c' (p + 1) in
      (tr ++ tr', res)
  | (tr, Raise e) =>
      let '(tr', res) := process_rows world disks args mp (S idx) rows c p in
      (tr ++ Log ERROR (MsgRowError idx e) :: tr', res)
  end.
Proof.
  intros Hlimit. cbn [process_rows].
  replace (negb (arg_limit_rows args =? 0) && (arg_limit_rows args <=? p))
    with false.
  2: { symmetry. apply andb_false_iff. rewrite negb_false_iff, Z.eqb_eq, Z.leb_gt.
       tauto. }
  destruct (process_shelf_tags_row _ _ _ _ _ _ _ _) as [tr [c'|e]]; simpl.
  - rewrite app_nil_r. by destruct (process_rows _ _ _ _ _ _ _ _).
  - destruct (process_rows _ _ _ _ _ _ _ _). by rewrite <-app_assoc.
Qed.

Lemma process_rows_stop world disks args mp idx r rows c p :
  ¬ (arg_limit_rows args = 0 ∨ p < arg_limit_rows args) →
  process_rows world disks args mp idx (r :: rows) c p = ([], Return c).
Proof.
  intros Hlimit. cbn [process_rows].
  replace (negb (arg_limit_rows args =? 0) && (arg_limit_rows args <=? p))
    with true; [done|].
  symmetry. apply andb_true_iff. rewrite negb_true_iff, Z.eqb_neq, Z.leb_le.
  lia.
Qed.

Lemma no_partial_row_step world disks args mp idx r rows c p :
  arg_limit_rows args = 0 ∨ p < arg_limit_rows args →
  no_partial_row world disks args mp idx (r :: rows) c p =
  match process_shelf_tags_row (world idx) (disks idx) r (arg_zip_field args)
          (arg_json_field args) c (arg_out args) mp with
  | (tr, Return c') =>
      no_partial_row world disks args mp (S idx) rows c' (p + 1)
  | (tr, Raise e) =>
      images_written tr = [] ∧
      no_partial_row world disks args mp (S idx) rows c p
  end.
Proof.
  intros Hlimit. cbn [no_partial_row].
  replace (negb (arg_limit_rows args =? 0) && (arg_limit_rows args <=? p))
    with false; [done|].
  symmetry. apply andb_false_iff. rewrite negb_false_iff, Z.eqb_eq, Z.leb_gt.
  tauto.
Qed.

(** When no operation on the file system fails, a row that raises has
    written nothing. *)
Lemma reliable_no_partial_row world disks args mp idx rows c p :
  (∀ i op, disks i op = None) →
  no_partial_row world disks args mp idx rows c p.
Proof.
  intros Hfs. revert idx c p. induction rows as [|r rows IH]; intros idx c p.
  { done. }
  destruct (decide (arg_limit_rows args = 0 ∨ p < arg_limit_rows args))
    as [Hlimit|Hlimit].
  2: { cbn [no_partial_row].
       replace (negb (arg_limit_rows args =? 0) && (arg_limit_rows args <=? p))
         with true; [done|].
       symmetry. apply andb_true_iff.
       rewrite negb_true_iff, Z.eqb_neq, Z.leb_le. lia. }
  rewrite no_partial_row_step by done.
  destruct (process_shelf_tags_row _ _ _ _ _ _ _ _) as [tr [c'|e]] eqn:Hrow;
    [apply IH|].
  split; [|apply IH].
  apply row_image_paths in Hrow as (_ & _ & _ & [Hw|[op Hop]]).
  - by rewrite <-images_written_writes, Hw.
  - by rewrite Hfs in Hop.
Qed.

(** The driver always returns.  The images of a run are numbered above its
    first counter value, its metadata lines are at most as many as its
    images and go to the one metadata file, and its final counter value is
    at most the first one plus the number of images. *)
Lemma process_rows_returns world disks args mp idx rows c p :
  ∃ tr final,
    process_rows world disks args mp idx rows c p = (tr, Return final) ∧
    c ≤ final ≤ c + Z.of_nat (length (images_written tr)) ∧
    (length (lines_appended tr) ≤ length (images_written tr))%nat ∧
    Forall (λ line, line.1 = mp) (lines_appended tr) ∧
    ∀ path, path ∈ (images_written tr).*1 →
            ∃ n, path = path_join (arg_out args) (image_name n) ∧ c < n.
Proof.
  revert idx c p. induction rows as [|r rows IH]; intros idx c p.
  { exists [], c. repeat split; simpl; try lia; [done|].
    by intros path ?%elem_of_nil. }
  destruct (decide (arg_limit_rows args = 0 ∨ p < arg_limit_rows args))
    as [Hlimit|Hlimit].
  2: { exists [], c. rewrite process_rows_stop by done.
       repeat split; simpl; try lia; [done|]. by intros path ?%elem_of_nil. }
  rewrite process_rows_step by done.
  destruct (process_shelf_tags_row _ _ _ _ _ _ _ _) as [tr [c'|e]] eqn:Hrow;
    apply row_image_paths in Hrow as (Hpaths & Hlines & Hmp & Hres).
  - destruct Hres as (-> & _).
    destruct (IH (S idx) (c + Z.of_nat (length (images_written tr))) (p + 1))
      as (tr' & final & -> & Hle' & Hlines' & Hmp' & Hpaths').
    exists (tr ++ tr'), final. split; [done|].
    rewrite images_written_app, lines_appended_app, !length_app, fmap_app.
    split; [lia|]. split; [lia|]. split; [by apply Forall_app|].
    intros path [Hp|Hp]%elem_of_app.
    + rewrite Hpaths in Hp. apply elem_of_image_paths in Hp as (n & -> & Hn).
      exists n. split; [done|lia].
    + destruct (Hpaths' path Hp) as (n & -> & Hn). exists n. split; [done|lia].
  - destruct (IH (S idx) c p)
      as (tr' & final & -> & Hle' & Hlines' & Hmp' & Hpaths').
    exists (tr ++ Log ERROR (MsgRowError idx e) :: tr'), final.
    split; [done|].
    rewrite images_written_app, lines_appended_app, !length_app, fmap_app.
    cbn [images_written lines_appended omap list_omap].
    fold (images_written tr'). fold (lines_appended tr').
    split; [lia|]. split; [lia|]. split; [by apply Forall_app|].
    intros path [Hp|Hp]%elem_of_app.
    + rewrite Hpaths in Hp. apply elem_of_image_paths in Hp as (n & -> & Hn).
      exists n. split; [done|lia].
    + by apply Hpaths'.
Qed.

(** When no row raises after it has saved an image, the writes of a run
    are, for each saved image in turn, the image under the next counter
    value and its line. *)
Lemma process_rows_writes world disks args mp idx rows c p tr final :
  process_rows world disks args mp idx rows c p = (tr, Return final) →
  no_partial_row world disks args mp idx rows c p →
  ∃ saved,
    writes tr = expected_writes (arg_out args) mp c saved ∧
    final = c + Z.of_nat (length saved).
Proof.
  revert idx c p tr. induction rows as [|r rows IH]; intros idx c p tr.
  { intros [= <- <-] _. exists []. by rewrite Z.add_0_r. }
  destruct (decide (arg_limit_rows args = 0 ∨ p < arg_limit_rows args))
    as [Hlimit|Hlimit].
  2: { rewrite process_rows_stop by done. intros [= <- <-] _.
       exists []. by rewrite Z.add_0_r. }
  rewrite process_rows_step, no_partial_row_step by done.
  destruct (process_shelf_tags_row _ _ _ _ _ _ _ _) as [tr0 [c'|e]] eqn:Hrow;
    apply row_image_paths in Hrow as (Hpaths & Hlines & _ & Hres).
  - destruct Hres as (-> & _ & saved & Hw & Hlen).
    destruct (process_rows world disks args mp (S idx) rows _ (p + 1))
      as [tr' res'] eqn:Hrest.
    intros [= <- ->] Hclean.
    destruct (IH _ _ _ _ Hrest Hclean) as (saved' & Hw' & ->).
    exists (saved ++ saved').
    rewrite writes_app, Hw, Hw', expected_writes_app, length_app, Hlen.
    split; [done|lia].
  - destruct (process_rows world disks args mp (S idx) rows c p)
      as [tr' res'] eqn:Hrest.
    intros [= <- ->] [Hnone Hclean].
    destruct (IH _ _ _ _ Hrest Hclean) as (saved' & Hw' & ->).
    exists saved'. split; [|done].
    rewrite writes_app, writes_cons. simpl.
    assert (Hw0 : writes tr0 = []).
    { assert (Hl0 : lines_appended tr0 = []).
      { apply length_zero_iff_nil. rewrite Hnone in Hlines. simpl in Hlines.
        lia. }
      clear -Hnone Hl0. induction tr0 as [|ev tr0 IH]; [done|].
      rewrite writes_cons. destruct ev; simpl in *; try done; by apply IH. }
    by rewrite Hw0.
Qed.

Lemma process_rows_image_paths world disks args mp idx rows c p tr final :
  process_rows world disks args mp idx rows c p = (tr, Return final) →
  no_partial_row world disks args mp idx rows c p →
  (images_written tr).*1 = image_paths (arg_out args) c final.
Proof.
  intros Hrun Hclean.
  destruct (process_rows_writes _ _ _ _ _ _ _ _ _ _ Hrun Hclean)
    as (saved & Hw & ->).
  rewrite <-images_written_writes, Hw, images_written_expected.
  unfold image_paths.
  replace (c + Z.of_nat (length saved) - c)
    with (Z.of_nat (length saved)) by lia.
  apply fst_zip. rewrite !length_fmap, length_seqZ. lia.
Qed.

(** C9: an exception raised while a row is processed is caught by the
    driver, which logs it with the index of the row and goes on with the
    next row from the counter value (and the count of processed rows) it had
    before the failed row; the driver itself never raises. *)
Theorem row_failure_is_isolated world disks args mp idx r rows c p tr e :
  arg_limit_rows args = 0 ∨ p < arg_limit_rows args →
  process_shelf_tags_row (world idx) (disks idx) r (arg_zip_field args)
    (arg_json_field args) c (arg_out args) mp = (tr, Raise e) →
  (∃ tr' final,
     process_rows world disks args mp (S idx) rows c p = (tr', Return final) ∧
     process_rows world disks args mp idx (r :: rows) c p
     = (tr ++ Log ERROR (MsgRowError idx e) :: tr', Return final)) ∧
  (∀ rows' idx' c' p', ∃ tr' final,
     process_rows world disks args mp idx' rows' c' p' = (tr', Return final)).
Proof.
  intros Hlimit Hrow. split.
  - destruct (process_rows_returns world disks args mp (S idx) rows c p)
      as (tr' & final & Hrest & _).
    exists tr', final. split; [done|].
    by rewrite process_rows_step, Hrow, Hrest.
  - intros rows' idx' c' p'.
    destruct (process_rows_returns world disks args mp idx' rows' c' p')
      as (tr' & final & Hrun & _).
    by exists tr', final.
Qed.

(** C8 (as amended): a call of the Row Processor that starts at counter
    value s writes its images under the names <n>.heif for n = s+1, s+2,
    ... in this order, whether it returns or raises, and a call that
    returns, returns the number of its last image, so that s < n <=
    counter_end.  A run never raises and numbers all its images above its
    first counter value.  When no row of the run raises after it has saved
    an image, which is so when no operation on the file system fails, the
    i-th image saved in the run (from 0) is numbered start+1+i and the last
    one has the final counter value; a run started at the final counter
    value of such a run, in the same output directory, then writes only
    higher numbers and none of the first run's paths. *)
Theorem image_numbers_never_reused :
  (∀ net fs r zf jf s out mp tr res,
     process_shelf_tags_row net fs r zf jf s out mp = (tr, res) →
     (images_written tr).*1
     = (λ n, path_join out (Str.of_int n +:+ ".heif"))
         <$> seqZ (s + 1) (Z.of_nat (length (images_written tr))) ∧
     NoDup (images_written tr).*1 ∧
     ∀ counter_end, res = Return counter_end →
       counter_end = s + Z.of_nat (length (images_written tr)) ∧
       ∀ path, path ∈ (images_written tr).*1 ↔
         ∃ n, path = path_join out (Str.of_int n +:+ ".heif") ∧
              s < n ≤ counter_end) ∧
  (∀ world disks args mp idx rows c p, ∃ tr final,
     process_rows world disks args mp idx rows c p = (tr, Return final) ∧
     c ≤ final ∧
     (∀ path, path ∈ (images_written tr).*1 →
        ∃ n, path = path_join (arg_out args) (Str.of_int n +:+ ".heif") ∧
             c < n) ∧
     (no_partial_row world disks args mp idx rows c p →
      NoDup (images_written tr).*1 ∧
      ∀ (i : nat) path,
        (images_written tr).*1 !! i = Some path ↔
        path = path_join (arg_out args)
                 (Str.of_int (c + 1 + Z.of_nat i) +:+ ".heif") ∧
        c + Z.of_nat i < final)) ∧
  (∀ world disks args mp idx rows c p,
     (∀ i op, disks i op = None) →
     no_partial_row world disks args mp idx rows c p) ∧
  (∀ world world' disks disks' args args' mp mp' rows rows'
     tr tr' final final',
     process_rows world disks args mp 0 rows (arg_start args) 0
     = (tr, Return final) →
     no_partial_row world disks args mp 0 rows (arg_start args) 0 →
     arg_out args' = arg_out args →
     arg_start args' = final →
     process_rows world' disks' args' mp' 0 rows' (arg_start args') 0
     = (tr', Return final') →
     ∀ path path',
       path ∈ (images_written tr).*1 → path' ∈ (images_written tr').*1 →
       path ≠ path' ∧
       ∃ n n', path = path_join (arg_out args) (Str.of_int n +:+ ".heif") ∧
               path' = path_join (arg_out args) (Str.of_int n' +:+ ".heif") ∧
               arg_start args < n ≤ final ∧ final < n').
Proof.
  split; [|split; [|split]].
  - intros net fs r zf jf s out mp tr res Hrow.
    apply row_image_paths in Hrow as (Hpaths & _ & _ & Hres).
    split; [|split].
    + rewrite Hpaths at 1. unfold image_paths. do 2 f_equal. lia.
    + rewrite Hpaths. apply image_paths_NoDup.
    + intros counter_end ->. destruct Hres as (Hend & _).
      split; [done|]. intros path. rewrite Hpaths, <-Hend.
      apply elem_of_image_paths.
  - intros world disks args mp idx rows c p.
    destruct (process_rows_returns world disks args mp idx rows c p)
      as (tr & final & Hrun & Hle & _ & _ & Hpaths).
    exists tr, final. split; [done|]. split; [lia|]. split; [done|].
    intros Hclean.
    rewrite (process_rows_image_paths _ _ _ _ _ _ _ _ _ _ Hrun Hclean).
    split; [apply image_paths_NoDup|].
    intros i path. apply image_paths_lookup.
  - intros world disks args mp idx rows c p.
    apply reliable_no_partial_row.
  - intros world world' disks disks' args args' mp mp' rows rows'
      tr tr' final final' Hrun Hclean Hout Hstart Hrun' path path' Hp Hp'.
    rewrite (process_rows_image_paths _ _ _ _ _ _ _ _ _ _ Hrun Hclean) in Hp.
    apply elem_of_image_paths in Hp as (n & -> & Hn).
    destruct (process_rows_returns world' disks' args' mp' 0 rows'
                (arg_start args') 0)
      as (? & ? & Heq & _ & _ & _ & Hpaths').
    rewrite Hrun' in Heq. injection Heq as <- <-.
    destruct (Hpaths' path' Hp') as (n' & -> & Hn').
    rewrite Hout, Hstart in *.
    split; [|by exists n, n'].
    intros Heq%image_path_inj. lia.
Qed.

(** *** Elements without a usable barcode *)

Lemma is_all_zeros_zeros (n : nat) : is_all_zeros (zeros (S n)) = true.
Proof.
  unfold is_all_zeros. simpl.
  induction n as [|n IH]; [done|]. simpl in *. by rewrite IH.
Qed.

Lemma unusable_barcode_filtered (v : json) :
  unusable_barcode v →
  negb (Str.nonempty (barcode_text v)) || is_all_zeros (barcode_text v) = true.
Proof.
  unfold barcode_text. intros [| |v' Hblank|v' n Hzeros]; [done..| |].
  - destruct (is_none_or_null v'); [done|]. by rewrite Hblank.
  - destruct (is_none_or_null v'); [done|].
    by rewrite Hzeros, is_all_zeros_zeros, orb_true_r.
Qed.

Lemma get_method_cases (v : json) (k : string) :
  (∃ x, get_method v k = ([], Return x))
  ∨ get_method v k = ([], Raise AttributeError).
Proof. destruct v; simpl; eauto. Qed.

Lemma strip_method_cases (v : json) :
  (∃ s, strip_method v = ([], Return s))
  ∨ strip_method v = ([], Raise AttributeError).
Proof. destruct v; simpl; eauto. Qed.

Lemma match_item_unusable (d : list (string * json)) (m : meta) :
  unusable_barcode (json_get d "barcode") →
  match_item (JDict d) m = ([], Return m)
  ∨ match_item (JDict d) m = ([], Raise AttributeError).
Proof.
  intros Hbad%unusable_barcode_filtered. unfold match_item.
  destruct (get_method_cases
              (py_or (json_get d "uploaded_image") (JDict [])) "image_filename")
    as [[name_raw ->]| ->]; [|by right].
  destruct (strip_method_cases (py_or name_raw (JStr "")))
    as [[filename Hf]|Hf]; simpl; rewrite Hf; simpl; [|by right].
  destruct (negb (Str.nonempty filename)); [by left|].
  rewrite Hbad. by left.
Qed.

Lemma build_filename_to_meta_drop (d : list (string * json))
    (before after : list json) (m0 m : meta) (tr : list event) :
  unusable_barcode (json_get d "barcode") →
  build_filename_to_meta (before ++ JDict d :: after) m0 = (tr, Return m) →
  build_filename_to_meta (before ++ after) m0 = (tr, Return m).
Proof.
  intros Hbad. revert m0 tr m.
  induction before as [|x before IH]; intros m0 tr m.
  - rewrite !app_nil_l. cbn [build_filename_to_meta].
    destruct (match_item_unusable d m0 Hbad) as [-> | ->];
      rewrite bind_unfold; simpl; [|done].
    by destruct (build_filename_to_meta after m0).
  - rewrite <-!app_comm_cons. cbn [build_filename_to_meta].
    rewrite !bind_unfold.
    destruct (match_item x m0) as [tr1 [m1|e]]; [|done].
    destruct (build_filename_to_meta (before ++ JDict d :: after) m1)
      as [tr2 [m2|e]] eqn:Hrest; simpl; [|done].
    intros [= <- <-]. by rewrite (IH _ _ _ Hrest).
Qed.

Lemma row_after_parse_list net fs url zf jf x objs start out mp :
  Str.nonempty url = true →
  row_after_parse net fs url zf jf (JList (x :: objs)) start out mp =
  zip_bytes ← download_bytes net url 3;
  match zip_bytes with
  | None | Some [] => emit (Log ERROR (MsgNoData url));; mret start
  | Some zip_bytes =>
      zip_entries ← extract_zip_entries zip_bytes;
      if bool_decide (zip_entries = ∅) then
        emit (Log WARNING (MsgZipEmpty url));; mret start
      else
        filename_to_meta ← build_filename_to_meta (x :: objs) [];
        with_metadata_file fs
          (write_images fs (py_sorted sort_key (Dict.keys filename_to_meta))
             zip_entries filename_to_meta out mp start)
  end.
Proof. intros Hurl. unfold row_after_parse. by rewrite Hurl. Qed.

(** A row depends on its metadata list only through the mapping built
    from it. *)
Lemma row_after_parse_same_meta net fs url zf jf x objs x' objs' start out mp
    tr c :
  (∀ trb m, build_filename_to_meta (x :: objs) [] = (trb, Return m) →
            build_filename_to_meta (x' :: objs') [] = (trb, Return m)) →
  row_after_parse net fs url zf jf (JList (x :: objs)) start out mp
  = (tr, Return c) →
  row_after_parse net fs url zf jf (JList (x' :: objs')) start out mp
  = (tr, Return c).
Proof.
  intros Hbuild. destruct (Str.nonempty url) eqn:Hurl.
  2: { unfold row_after_parse. by rewrite Hurl. }
  rewrite !row_after_parse_list by done. rewrite !bind_unfold.
  destruct (download_bytes net url 3) as [tr0 [[[|b zb]|]|e]]; try done.
  rewrite !bind_unfold.
  destruct (extract_zip_entries (b :: zb)) as [trz [zip_entries|e]]; [|done].
  destruct (bool_decide (zip_entries = ∅)); [done|].
  rewrite !bind_unfold.
  destruct (build_filename_to_meta (x :: objs) []) as [trb [m|e]] eqn:Hb;
    [|done].
  by rewrite (Hbuild _ _ eq_refl).
Qed.

Lemma row_after_parse_drop net fs url zf jf d before after start out mp tr c :
  unusable_barcode (json_get d "barcode") →
  row_after_parse net fs url zf jf (JList (before ++ JDict d :: after))
    start out mp = (tr, Return c) →
  ∃ tr', row_after_parse net fs url zf jf (JList (before ++ after))
           start out mp = (tr', Return c) ∧ writes tr' = writes tr.
Proof.
  intros Hbad Hrow.
  destruct (before ++ JDict d :: after) as [|x objs] eqn:Hitems.
  { by destruct before. }
  destruct (before ++ after) as [|x' objs'] eqn:Hitems'.
  - apply app_eq_nil in Hitems' as [-> ->]. injection Hitems as <- <-.
    exists (if Str.nonempty url then [Log INFO (MsgSkipInvalidJson jf)]
            else [Log INFO (MsgSkipNoUrl zf)]).
    destruct (row_after_parse_cases net fs url zf jf (JList [JDict d])
                start out mp)
      as [(tr1 & Heq & Hw)|[(tr1 & e & Heq & Hw)|
          (tr0 & x & objs & zb & ze & m & Hit & _ & _ & _ & _ & _ & Hb
           & Hw0 & Heq)]]; rewrite Hrow in Heq.
    + injection Heq as <- <-. rewrite Hw. unfold row_after_parse.
      by destruct (Str.nonempty url).
    + done.
    + injection Hit as <- <-.
      apply (build_filename_to_meta_drop d [] [] [] m []) in Hb; [|done].
      simpl in Hb. injection Hb as <-.
      destruct (with_metadata_file_cases fs
                  (write_images fs (py_sorted sort_key (Dict.keys ([] : meta)))
                     ze [] out mp start))
        as [(_ & _ & Hwith)|[(e & _ & Hwith)|(e & _ & _ & Hwith)]];
        rewrite Hwith in Heq; [|done..].
      simpl in Heq. injection Heq as -> ->.
      rewrite writes_app, Hw0. unfold row_after_parse.
      by destruct (Str.nonempty url).
  - exists tr. split; [|done].
    eapply row_after_parse_same_meta; [|exact Hrow].
    intros trb m. rewrite <-Hitems, <-Hitems'.
    by apply build_filename_to_meta_drop.
Qed.

(** C2: a metadata element whose barcode is missing, null, the string
    "null", empty after trimming or made of zeros only never adds or changes
    an entry of the filename-to-metadata mapping, whatever its
    barcode_detection_source; the mapping, the image files written, the
    metadata lines appended and the counter returned by the row are those of
    the same row without that element. *)
Theorem unusable_barcode_contributes_nothing (d : list (string * json)) :
  unusable_barcode (json_get d "barcode") →
  (∀ m, match_item (JDict d) m = ([], Return m)
        ∨ match_item (JDict d) m = ([], Raise AttributeError)) ∧
  (∀ before after m0 tr m,
     build_filename_to_meta (before ++ JDict d :: after) m0 = (tr, Return m) →
     build_filename_to_meta (before ++ after) m0 = (tr, Return m)) ∧
  (∀ net fs r r' zf jf start out mp before after tr c,
     get_field_value r zf = get_field_value r' zf →
     (safe_json_loads (get_field_value r jf)).2
     = Return (JList (before ++ JDict d :: after)) →
     (safe_json_loads (get_field_value r' jf)).2
     = Return (JList (before ++ after)) →
     process_shelf_tags_row net fs r zf jf start out mp = (tr, Return c) →
     ∃ tr', process_shelf_tags_row net fs r' zf jf start out mp
            = (tr', Return c) ∧
            images_written tr' = images_written tr ∧
            lines_appended tr' = lines_appended tr ∧
            writes tr' = writes tr).
Proof.
  intros Hbad. split; [|split].
  - intros m. by apply match_item_unusable.
  - intros before after m0 tr m. by apply build_filename_to_meta_drop.
  - intros net fs r r' zf jf start out mp before after tr c Hurl Hj Hj' Hrow.
    rewrite process_shelf_tags_row_unfold, bind_unfold in Hrow.
    rewrite process_shelf_tags_row_unfold, bind_unfold, <-Hurl.
    destruct (safe_json_loads_returns (get_field_value r jf))
      as (trj & items & Heq & Hwj & _).
    rewrite Heq in Hj, Hrow. simpl in Hj. injection Hj as ->.
    destruct (safe_json_loads_returns (get_field_value r' jf))
      as (trj' & items' & Heq' & Hwj' & _).
    rewrite Heq' in Hj'. rewrite Heq'. simpl in Hj'. injection Hj' as ->.
    destruct (row_after_parse _ _ _ _ _ (JList (before ++ JDict d :: after))
                _ _ _) as [tra res] eqn:Hafter.
    simpl in Hrow. injection Hrow as <- ->.
    apply row_after_parse_drop in Hafter as (tra' & -> & Hw); [|done].
    eexists. split; [done|]. simpl.
    assert (Hwrites : writes (trj' ++ tra') = writes (trj ++ tra)).
    { by rewrite !writes_app, Hwj, Hwj', Hw. }
    split; [|split; [|done]].
    + by rewrite <-images_written_writes, Hwrites, images_written_writes.
    + by rewrite <-lines_appended_writes, Hwrites, lines_appended_writes.
Qed.

(** *** Rows that are skipped *)

Lemma no_writes_no_output (tr : list event) :
  writes tr = [] → images_written tr = [] ∧ lines_appended tr = [].
Proof.
  intros Hw. by rewrite <-images_written_writes, <-lines_appended_writes, Hw.
Qed.

Lemma row_after_parse_no_list net fs url zf jf items start out mp :
  (∀ x l, items ≠ JList (x :: l)) →
  ∃ tr, row_after_parse net fs url zf jf items start out mp = (tr, Return start) ∧
        writes tr = [] ∧ network_events tr = [].
Proof.
  intros Hitems. unfold row_after_parse.
  destruct (Str.nonempty url); simpl; [|by eexists].
  destruct items as [| | | | |[|x l]|]; try by eexists.
  by destruct (Hitems x l).
Qed.

Lemma safe_json_loads_no_usable_metadata (cell : option string) :
  no_usable_metadata cell →
  ∃ tr v, safe_json_loads cell = (tr, Return v) ∧
          writes tr = [] ∧ network_events tr = [] ∧
          ∀ x l, v ≠ JList (x :: l).
Proof.
  unfold safe_json_loads. destruct cell as [text|]; simpl.
  2: { intros _. by exists [], JNull. }
  intros [Hempty|[Hfail|(v & Hv & Hlist)]].
  - rewrite Hempty. by exists [], JNull.
  - destruct (Str.nonempty (Str.strip text)); simpl; [|by exists [], JNull].
    rewrite Hfail. by eexists _, JNull.
  - destruct (Str.nonempty (Str.strip text)); simpl; [|by exists [], JNull].
    rewrite Hv. by exists [], v.
Qed.

(** C4: a row whose JSON cell is absent, empty, unparseable, or parses to
    anything but a non-empty list (to [[]] in particular) returns
    counter_start, writes no image and no metadata line, and makes no
    request; parsing the cell never raises. *)
Theorem unusable_json_skips_row net fs r zf jf start out mp :
  no_usable_metadata (get_field_value r jf) →
  (∃ tr, process_shelf_tags_row net fs r zf jf start out mp = (tr, Return start) ∧
         images_written tr = [] ∧ lines_appended tr = [] ∧
         network_events tr = []) ∧
  (∀ text, ∃ tr v, safe_json_loads text = (tr, Return v)).
Proof.
  intros Hcell. split.
  - rewrite process_shelf_tags_row_unfold, bind_unfold.
    destruct (safe_json_loads_no_usable_metadata _ Hcell)
      as (trj & v & -> & Hwj & Hnj & Hv).
    destruct (row_after_parse_no_list net fs
                (Str.strip (default "" (get_field_value r zf)))
                zf jf v start out mp Hv) as (tra & -> & Hwa & Hna).
    eexists. split; [done|]. simpl.
    rewrite network_events_app, Hnj, Hna.
    destruct (no_writes_no_output (trj ++ tra)) as [-> ->]; [|done].
    by rewrite writes_app, Hwj, Hwa.
  - intros text.
    destruct (safe_json_loads_returns text) as (tr & v & Heq & _).
    by exists tr, v.
Qed.

(** C5: when the fetch of the archive returns absent, or the decoded
    archive has no entries, the row returns counter_start and writes no
    image and no metadata line. *)
Theorem failed_fetch_or_empty_archive_skips_row
    net fs r zf jf start out mp zip_url :
  zip_url = Str.strip (default "" (get_field_value r zf)) →
  (download_bytes net zip_url 3).2 = Return None ∨
  (∃ zip_bytes, (download_bytes net zip_url 3).2 = Return (Some zip_bytes) ∧
                (extract_zip_entries zip_bytes).2 = Return ∅) →
  ∃ tr, process_shelf_tags_row net fs r zf jf start out mp = (tr, Return start) ∧
        images_written tr = [] ∧ lines_appended tr = [].
Proof.
  intros -> Hfetch.
  rewrite process_shelf_tags_row_unfold, bind_unfold.
  destruct (safe_json_loads_returns (get_field_value r jf))
    as (trj & items & -> & Hwj & _).
  cut (∃ tra, row_after_parse net fs
                (Str.strip (default "" (get_field_value r zf)))
                zf jf items start out mp = (tra, Return start) ∧
              writes tra = []).
  { intros (tra & -> & Hwa). eexists. split; [done|]. simpl.
    apply no_writes_no_output. by rewrite writes_app, Hwj, Hwa. }
  destruct (Str.nonempty (Str.strip (default "" (get_field_value r zf))))
    eqn:Hurl.
  2: { unfold row_after_parse. rewrite Hurl. by eexists. }
  assert (Hcases : (∃ x l, items = JList (x :: l))
                   ∨ ∀ x l, items ≠ JList (x :: l)).
  { destruct items as [| | | | |[|x l]|]; try by right. left. by exists x, l. }
  destruct Hcases as [(x & l & ->)|Hitems].
  2: { destruct (row_after_parse_no_list net fs
                   (Str.strip (default "" (get_field_value r zf)))
                   zf jf items start out mp) as (tra & ? & ? & _).
       - done.
       - by exists tra. }
  rewrite row_after_parse_list, bind_unfold by done.
  pose proof (download_bytes_writes net
                (Str.strip (default "" (get_field_value r zf))) 3) as Hwd.
  destruct (download_bytes net _ 3) as [tr0 [[zb|]|e]]; simpl in Hfetch, Hwd.
  - destruct Hfetch as [[=]|(zb' & [= <-] & Hzip)].
    destruct zb as [|b zb].
    { eexists. split; [done|]. by rewrite writes_app, Hwd. }
    rewrite bind_unfold.
    pose proof (extract_zip_entries_trace (b :: zb)) as Htz.
    destruct (extract_zip_entries (b :: zb)) as [trz [ze|e]];
      simpl in Hzip, Htz; [|done].
    injection Hzip as ->. subst trz.
    rewrite bool_decide_true by done.
    eexists. split; [done|]. by rewrite !writes_app, Hwd.
  - eexists. split; [done|]. by rewrite writes_app, Hwd.
  - by destruct Hfetch as [[=]|(zb' & [=] & _)].
Qed.

(** *** The fetch with retries *)

Lemma attempts_made_cons ev tr :
  attempts_made (ev :: tr)
  = match ev with UrlOpen _ a => a :: attempts_made tr | _ => attempts_made tr end.
Proof. by destruct ev. Qed.

Lemma download_loop_attempts_bound net url max_retries attempts last_err :
  (length (attempts_made
             (download_loop net url max_retries attempts last_err).1)
   ≤ length attempts)%nat.
Proof.
  revert last_err. induction attempts as [|a attempts IH]; intros last_err.
  { by destruct last_err. }
  cbn [download_loop]. simpl.
  destruct (net url a) as [b|e]; simpl; [lia|].
  destruct (is_network_error e); simpl; [|lia].
  specialize (IH (Some e)).
  destruct (download_loop net url max_retries attempts (Some e)) as [tr res].
  simpl in *. lia.
Qed.

Lemma download_loop_all_fail net url max_retries attempts last_err :
  (∀ a, a ∈ attempts →
        ∃ e, net url a = Fails e ∧ is_network_error e = true) →
  ∃ tr, download_loop net url max_retries attempts last_err
        = (tr, Return None) ∧
        network_events tr = failed_attempts url attempts.
Proof.
  revert last_err. induction attempts as [|a attempts IH];
    intros last_err Hfail.
  { destruct last_err; by eexists. }
  cbn [download_loop]. simpl.
  destruct (Hfail a) as (e & -> & ->); [by left|].
  destruct (IH (Some e)) as (tr & -> & Hn).
  { intros a' Ha'. apply Hfail. by right. }
  eexists. split; [done|].
  rewrite !network_events_cons. simpl. by rewrite Hn.
Qed.

Lemma download_loop_first_success net url max_retries
    failed a rest last_err b :
  (∀ j, j ∈ failed →
        ∃ e, net url j = Fails e ∧ is_network_error e = true) →
  net url a = Body b →
  ∃ tr, download_loop net url max_retries (failed ++ a :: rest) last_err
        = (tr, Return (Some b)) ∧
        network_events tr = failed_attempts url failed ++ [UrlOpen url a].
Proof.
  intros Hfail Ha. revert last_err.
  induction failed as [|j failed IH]; intros last_err.
  { rewrite app_nil_l. cbn [download_loop]. simpl. rewrite Ha.
    by eexists. }
  rewrite <-app_comm_cons. cbn [download_loop]. simpl.
  destruct (Hfail j) as (e & -> & ->); [by left|].
  destruct (IH (λ j' Hj', Hfail j' (list_elem_of_further _ _ _ Hj')) (Some e))
    as (tr & -> & Hn).
  eexists. split; [done|].
  rewrite !network_events_cons. simpl. by rewrite Hn.
Qed.

(** C6: the fetch makes at most max_retries attempts; it returns the bytes
    of the first attempt that succeeds, having waited min(2^attempt, 10)
    seconds after each of the failed attempts before it; and when every
    attempt fails with a network or protocol error it waits
    min(2^attempt, 10) seconds after each attempt and returns absent without
    raising.  (The row processor calls it with max_retries = 3.) *)
Theorem fetch_retries_then_gives_up (net : network) (url : string)
    (max_retries : Z) :
  (length (attempts_made (download_bytes net url max_retries).1)
   ≤ Z.to_nat max_retries)%nat ∧
  (∀ k b,
     1 ≤ k ≤ max_retries →
     (∀ j, 1 ≤ j < k →
           ∃ e, net url j = Fails e ∧ is_network_error e = true) →
     net url k = Body b →
     ∃ tr, download_bytes net url max_retries = (tr, Return (Some b)) ∧
           network_events tr
           = failed_attempts url (seqZ 1 (k - 1)) ++ [UrlOpen url k]) ∧
  ((∀ j, 1 ≤ j ≤ max_retries →
         ∃ e, net url j = Fails e ∧ is_network_error e = true) →
   ∃ tr, download_bytes net url max_retries = (tr, Return None) ∧
         network_events tr = failed_attempts url (seqZ 1 max_retries)).
Proof.
  unfold download_bytes. split; [|split].
  - etrans; [apply download_loop_attempts_bound|].
    by rewrite length_seqZ.
  - intros k b Hk Hfail Hok.
    assert (Hsplit : seqZ 1 max_retries
                     = seqZ 1 (k - 1) ++ k :: seqZ (Z.succ k) (max_retries - k)).
    { replace max_retries with ((k - 1) + (max_retries - k + 1)) at 1 by lia.
      rewrite seqZ_app, (seqZ_cons (1 + (k - 1))) by lia.
      do 2 f_equal; [lia|]. f_equal; lia. }
    rewrite Hsplit. apply download_loop_first_success; [|done].
    intros j Hj%elem_of_seqZ. apply Hfail. lia.
  - intros Hfail. apply download_loop_all_fail.
    intros j Hj%elem_of_seqZ. apply Hfail. lia.
Qed.

(** *** Field lookup *)

Lemma normalize_field_name_filter (name : string) :
  String.list_ascii_of_string (normalize_field_name name)
  = filter (λ c, Char.isspace c = false) (String.list_ascii_of_string name).
Proof.
  induction name as [|c name IH]; [done|].
  simpl. rewrite filter_cons.
  destruct (Char.isspace c) eqn:Hc; simpl.
  - done.
  - by rewrite IH.
Qed.

Lemma first_normalized_match_found (before after : list (string * string))
    (k v norm : string) :
  normalize_field_name k = norm →
  (∀ k' v', (k', v') ∈ before → normalize_field_name k' ≠ norm) →
  first_normalized_match (before ++ (k, v) :: after) norm = Some v.
Proof.
  intros Hk Hbefore. induction before as [|[k' v'] before IH]; simpl.
  - by rewrite bool_decide_true.
  - rewrite bool_decide_false by (apply (Hbefore k' v'); by left).
    apply IH. intros k'' v'' Hin. apply (Hbefore k'' v''). by right.
Qed.

Lemma first_normalized_match_none (items : list (string * string))
    (norm : string) :
  (∀ k v, (k, v) ∈ items → normalize_field_name k ≠ norm) →
  first_normalized_match items norm = None.
Proof.
  intros Hitems. induction items as [|[k v] items IH]; simpl; [done|].
  rewrite bool_decide_false by (apply (Hitems k v); by left).
  apply IH. intros k' v' Hin. apply (Hitems k' v'). by right.
Qed.

(** C7: the lookup of a field returns the value under the exact key when
    the row has it; otherwise the value of the first key of the row whose
    name, all whitespace removed, equals the field name with all whitespace
    removed; and absent when no key matches. *)
Theorem field_lookup_ignores_whitespace (r : row) (desired_field : string) :
  (∀ v, Dict.get r desired_field = Some v →
        get_field_value r desired_field = Some v) ∧
  (Dict.get r desired_field = None →
   (∀ before k v after,
      r = before ++ (k, v) :: after →
      normalize_field_name k = normalize_field_name desired_field →
      (∀ k' v', (k', v') ∈ before →
                normalize_field_name k' ≠ normalize_field_name desired_field) →
      get_field_value r desired_field = Some v) ∧
   ((∀ k v, (k, v) ∈ r →
            normalize_field_name k ≠ normalize_field_name desired_field) →
    get_field_value r desired_field = None)) ∧
  (∀ name,
     String.list_ascii_of_string (normalize_field_name name)
     = filter (λ c, Char.isspace c = false)
         (String.list_ascii_of_string name)).
Proof.
  unfold get_field_value, Dict.mem. split; [|split].
  - intros v Hv. by rewrite bool_decide_true by (by rewrite Hv).
  - intros Hnone.
    rewrite bool_decide_false by (rewrite Hnone; by intros [? ?]).
    split.
    + intros before k v after -> Hk Hbefore.
      by apply first_normalized_match_found.
    + apply first_normalized_match_none.
  - apply normalize_field_name_filter.
Qed.

(** *** A detection source that is not a string *)

Lemma all_zero_zeros (s : string) :
  Str.all (λ c, bool_decide (c = "0"%char)) s = true →
  s = zeros (String.length s).
Proof.
  induction s as [|c s IH]; simpl; [done|].
  intros [->%bool_decide_eq_true Hs]%andb_true_iff. f_equal. by apply IH.
Qed.

Lemma is_all_zeros_inv (s : string) :
  is_all_zeros s = true → ∃ n, s = zeros (S n).
Proof.
  unfold is_all_zeros. intros [Hne Hall]%andb_true_iff.
  apply all_zero_zeros in Hall. destruct s as [|c s]; [done|].
  by exists (String.length s).
Qed.

Lemma usable_barcode_kept (v : json) :
  ¬ unusable_barcode v →
  negb (Str.nonempty (barcode_text v)) || is_all_zeros (barcode_text v) = false.
Proof.
  intros Hgood. apply not_true_iff_false. intros Hbad. apply Hgood.
  unfold barcode_text in Hbad.
  destruct (is_none_or_null v) eqn:Hnull.
  { destruct v as [| | | |s| |]; try done; [constructor|].
    simpl in Hnull. apply bool_decide_eq_true in Hnull as ->. constructor. }
  apply orb_true_iff in Hbad as [Hempty|Hzeros].
  - apply barcode_blank. by destruct (Str.strip (py_str v)).
  - apply is_all_zeros_inv in Hzeros as [n Hn]. by eapply barcode_zeros.
Qed.

Lemma match_item_source_not_string (d ud : list (string * json))
    (f : string) (src : json) (m : meta) :
  json_get d "uploaded_image" = JDict ud →
  json_get ud "image_filename" = JStr f →
  Str.strip f ≠ "" →
  ¬ unusable_barcode (json_get d "barcode") →
  json_get d "barcode_detection_source" = src →
  src ≠ JNull → (∀ s, src ≠ JStr s) →
  match_item (JDict d) m = ([], Raise AttributeError).
Proof.
  intros Hud Hf Hname Hbarcode Hsrc Hnull Hstr.
  unfold match_item. rewrite Hud.
  assert (py_or (JDict ud) (JDict []) = JDict ud) as ->.
  { destruct ud; [done|done]. }
  simpl. rewrite Hf.
  assert (py_or (JStr f) (JStr "") = JStr f) as ->.
  { by destruct f. }
  simpl.
  destruct (Str.strip f) as [|c s] eqn:Hstrip; [done|]. simpl.
  rewrite (usable_barcode_kept _ Hbarcode), Hsrc.
  destruct src; try done. by destruct (Hstr s0).
Qed.

(** C10: a metadata element with a non-empty filename, a usable barcode and
    a barcode_detection_source that is neither null, the string "null" nor
    any string (the number 5, say) makes the matching step raise
    AttributeError instead of producing a mapping, and the row that has
    reached this step is aborted with that exception. *)
Theorem non_string_source_aborts_row (d ud : list (string * json))
    (f : string) (src : json) :
  json_get d "uploaded_image" = JDict ud →
  json_get ud "image_filename" = JStr f →
  Str.strip f ≠ "" →
  ¬ unusable_barcode (json_get d "barcode") →
  json_get d "barcode_detection_source" = src →
  src ≠ JNull → (∀ s, src ≠ JStr s) →
  (∀ m, match_item (JDict d) m = ([], Raise AttributeError)) ∧
  (∀ before after m0 m1,
     build_filename_to_meta before m0 = ([], Return m1) →
     build_filename_to_meta (before ++ JDict d :: after) m0
     = ([], Raise AttributeError)) ∧
  (∀ net fs r zf jf start out mp before after trj tr0 zip_bytes zip_entries m1,
     safe_json_loads (get_field_value r jf)
     = (trj, Return (JList (before ++ JDict d :: after))) →
     Str.nonempty (Str.strip (default "" (get_field_value r zf))) = true →
     download_bytes net (Str.strip (default "" (get_field_value r zf))) 3
     = (tr0, Return (Some zip_bytes)) →
     zip_bytes ≠ [] →
     extract_zip_entries zip_bytes = ([], Return zip_entries) →
     zip_entries ≠ ∅ →
     build_filename_to_meta before [] = ([], Return m1) →
     process_shelf_tags_row net fs r zf jf start out mp
     = (trj ++ tr0, Raise AttributeError)).
Proof.
  intros Hud Hf Hname Hbarcode Hsrc Hnull Hstr.
  assert (Hitem : ∀ m, match_item (JDict d) m = ([], Raise AttributeError)).
  { intros m. by eapply match_item_source_not_string. }
  assert (Hbuild : ∀ before after m0 m1,
            build_filename_to_meta before m0 = ([], Return m1) →
            build_filename_to_meta (before ++ JDict d :: after) m0
            = ([], Raise AttributeError)).
  { intros before after. induction before as [|x before IH]; intros m0 m1.
    - intros [= ->]. rewrite app_nil_l. cbn [build_filename_to_meta].
      by rewrite Hitem.
    - rewrite <-app_comm_cons. cbn [build_filename_to_meta].
      rewrite !bind_unfold.
      pose proof (match_item_trace x m0) as Htr.
      destruct (match_item x m0) as [tr [m'|e]]; simpl in Htr; subst tr;
        [|done].
      simpl. intros Hrest.
      rewrite (IH m' m1); [done|].
      by destruct (build_filename_to_meta before m'). }
  split; [done|]. split; [done|].
  intros net fs r zf jf start out mp before after trj tr0 zb ze m1
    Hjson Hurl Hfetch Hzb Hzip Hze Hbefore.
  rewrite process_shelf_tags_row_unfold, Hjson, bind_unfold.
  destruct (before ++ JDict d :: after) as [|x objs] eqn:Hitems.
  { by destruct before. }
  rewrite row_after_parse_list, Hfetch, bind_unfold by done.
  destruct zb as [|b zb]; [done|].
  rewrite Hzip, bind_unfold, bool_decide_false by done.
  rewrite <-Hitems, (Hbuild before after [] m1 Hbefore). simpl.
  by rewrite !app_nil_r.
Qed.

(** ** Further properties of the pipeline *)

(** *** The decoded archive *)

Lemma after_last_no_sep (sep : ascii) (s t : string) :
  Str.after_last sep s = Some t → Str.mem sep t = false.
Proof.
  revert t. induction s as [|c s IH]; intros t; simpl; [done|].
  destruct (Str.after_last sep s) as [t'|] eqn:Hs.
  - intros [= <-]. by apply IH.
  - destruct (bool_decide_reflect (c = sep)); [|done].
    intros [= <-]. clear IH. induction s as [|d s IHs]; [done|].
    simpl in Hs |- *.
    destruct (Str.after_last sep s); [done|].
    destruct (bool_decide (d = sep)); [done|]. by apply IHs.
Qed.

Lemma after_last_None (sep : ascii) (s : string) :
  Str.after_last sep s = None → Str.mem sep s = false.
Proof.
  induction s as [|d s IHs]; [done|]. simpl.
  destruct (Str.after_last sep s); [done|].
  destruct (bool_decide (d = sep)); [done|]. by auto.
Qed.

Lemma basename_no_slash (path : string) :
  Str.mem "/"%char (basename path) = false.
Proof.
  unfold basename. destruct (Str.after_last "/"%char path) eqn:Hp; simpl.
  - by eapply after_last_no_sep.
  - by apply after_last_None.
Qed.

Lemma foldl_insert_basename (members : list (string * bytes))
    (m0 : gmap string bytes) (name : string) :
  foldl (λ (result : gmap string bytes) zi, <[basename zi.1 := zi.2]> result)
    m0 members !! name
  = match last (filter (λ zi, basename zi.1 = name) members) with
    | Some zi => Some zi.2
    | None => m0 !! name
    end.
Proof.
  revert m0. induction members as [|zi members IH]; intros m0; [done|].
  simpl. rewrite IH, filter_cons.
  destruct (decide (basename zi.1 = name)) as [Heq|Hne].
  - rewrite last_cons.
    destruct (last (filter _ members)); [done|].
    by rewrite <-Heq, lookup_insert_eq.
  - destruct (last (filter _ members)); [done|].
    by rewrite lookup_insert_ne.
Qed.

(** X1: the decoded archive maps each base filename to the content of the
    last member that has it (directories are stripped, later members win),
    no key contains a slash, and an exception of the ZIP reader is raised to
    the caller unchanged. *)
Theorem extract_zip_entries_last_member_wins (zip_bytes : bytes) :
  match zip_members zip_bytes with
  | Return members =>
      ∃ zip_entries,
        extract_zip_entries zip_bytes = ([], Return zip_entries) ∧
        (∀ name,
           zip_entries !! name
           = snd <$> last (filter (λ zi, basename zi.1 = name) members)) ∧
        (∀ name, is_Some (zip_entries !! name) →
                 Str.mem "/"%char name = false)
  | Raise e => extract_zip_entries zip_bytes = ([], Raise e)
  end.
Proof.
  unfold extract_zip_entries.
  destruct (zip_members zip_bytes) as [members|e]; [|done].
  eexists. split; [done|].
  assert (Hlookup : ∀ name,
            foldl (λ (result : gmap string bytes) zi,
                     <[basename zi.1 := zi.2]> result) ∅ members !! name
            = snd <$> last (filter (λ zi, basename zi.1 = name) members)).
  { intros name. rewrite foldl_insert_basename.
    by destruct (last _). }
  split; [done|].
  intros name [data Hname]. rewrite Hlookup in Hname.
  destruct (last _) as [zi|] eqn:Hlast; [|done].
  apply last_Some_elem_of, list_elem_of_filter in Hlast as [<- _].
  apply basename_no_slash.
Qed.

(** *** The filename-to-metadata mapping *)

Lemma rstrip_idemp (s : string) : Str.rstrip (Str.rstrip s) = Str.rstrip s.
Proof.
  induction s as [|c s IH]; [done|]. simpl.
  destruct (Str.rstrip s) as [|d r] eqn:Hr.
  - destruct (Char.isspace c) eqn:Hc; [done|]. simpl. by rewrite Hc.
  - simpl in IH |- *. by rewrite IH.
Qed.

Lemma lstrip_head (s : string) :
  Str.lstrip s = "" ∨ ∃ c t, Str.lstrip s = String c t ∧ Char.isspace c = false.
Proof.
  induction s as [|c s IH]; [by left|]. simpl.
  destruct (Char.isspace c) eqn:Hc; [done|]. right. by exists c, s.
Qed.

Lemma lstrip_strip (s : string) : Str.lstrip (Str.strip s) = Str.strip s.
Proof.
  unfold Str.strip.
  destruct (lstrip_head s) as [->|(c & t & -> & Hc)]; [done|].
  simpl. destruct (Str.rstrip t); rewrite ?Hc; simpl; by rewrite Hc.
Qed.

Lemma strip_idemp (s : string) : Str.strip (Str.strip s) = Str.strip s.
Proof.
  unfold Str.strip at 1. rewrite lstrip_strip.
  unfold Str.strip. apply rstrip_idemp.
Qed.

Lemma dict_get_set {V} (d : Dict.t V) (k k' : string) (v : V) :
  Dict.get (Dict.set d k v) k'
  = if bool_decide (k = k') then Some v else Dict.get d k'.
Proof.
  induction d as [|[k0 v0] d IH]; simpl.
  { done. }
  destruct (bool_decide_reflect (k0 = k)) as [->|Hne]; simpl.
  - by destruct (bool_decide (k = k')).
  - rewrite IH. destruct (bool_decide_reflect (k0 = k')) as [->|?]; [|done].
    by rewrite bool_decide_false.
Qed.

Lemma dict_keys_set {V} (d : Dict.t V) (k : string) (v : V) :
  Dict.keys (Dict.set d k v)
  = if Dict.mem d k then Dict.keys d else Dict.keys d ++ [k].
Proof.
  unfold Dict.keys, Dict.mem. induction d as [|[k0 v0] d IH]; [done|].
  cbn [Dict.set Dict.get].
  destruct (bool_decide_reflect (k0 = k)) as [->|Hne].
  - by rewrite bool_decide_true by eauto.
  - rewrite fmap_cons, IH.
    by destruct (bool_decide (is_Some (Dict.get d k))).
Qed.

Lemma dict_mem_keys {V} (d : Dict.t V) (k : string) :
  Dict.mem d k = true ↔ k ∈ Dict.keys d.
Proof.
  unfold Dict.mem, Dict.keys. rewrite bool_decide_eq_true.
  induction d as [|[k0 v0] d IH]; simpl.
  { split; [by intros [? ?]|by intros ?%elem_of_nil]. }
  rewrite elem_of_cons.
  destruct (bool_decide_reflect (k0 = k)) as [->|Hne].
  - split; [by left|by eauto].
  - rewrite IH. split; [by right|]. by intros [->|?].
Qed.

Lemma dict_set_NoDup {V} (d : Dict.t V) (k : string) (v : V) :
  NoDup (Dict.keys d) → NoDup (Dict.keys (Dict.set d k v)).
Proof.
  intros Hd. rewrite dict_keys_set.
  destruct (Dict.mem d k) eqn:Hk; [done|].
  apply NoDup_app. split; [done|]. split; [|apply NoDup_singleton].
  intros k' Hk' ->%list_elem_of_singleton.
  apply dict_mem_keys in Hk'. congruence.
Qed.

Lemma strip_method_Return (v : json) (s : string) (tr : list event) :
  strip_method v = (tr, Return s) → ∃ s0, v = JStr s0 ∧ s = Str.strip s0.
Proof. destruct v; try done. intros [= _ <-]. by eexists. Qed.

(** What an element can do to the mapping when it does not raise. *)
Lemma match_item_Return (obj : json) (m m' : meta) (tr : list event) :
  match_item obj m = (tr, Return m') →
  m' = m ∨
  ∃ filename barcode source,
    m' = Dict.set m filename (barcode, source) ∧
    Str.nonempty filename = true ∧ Str.strip filename = filename ∧
    Str.nonempty barcode = true ∧ is_all_zeros barcode = false ∧
    Str.strip barcode = barcode ∧ Str.strip source = source.
Proof.
  destruct obj as [| | | | | |d]; try (intros [= _ <-]; by left).
  unfold match_item. rewrite bind_unfold.
  destruct (get_method _ _) as [tr1 [name_raw|e]]; [|done].
  rewrite bind_unfold.
  destruct (strip_method (py_or name_raw (JStr ""))) as [tr2 [filename|e]]
    eqn:Hname; [|done].
  apply strip_method_Return in Hname as (s0 & _ & ->).
  destruct (Str.nonempty (Str.strip s0)) eqn:Hne; simpl;
    [|intros [= _ <-]; by left].
  destruct (Str.nonempty (barcode_text (json_get d "barcode"))) eqn:Hb; simpl;
    [|intros [= _ <-]; by left].
  destruct (is_all_zeros (barcode_text (json_get d "barcode"))) eqn:Hz;
    [intros [= _ <-]; by left|].
  rewrite bind_unfold.
  destruct (strip_method _) as [tr3 [source|e]] eqn:Hsrc; [|done].
  apply strip_method_Return in Hsrc as (s1 & _ & ->).
  simpl. intros [= _ <-]. right.
  exists (Str.strip s0), (barcode_text (json_get d "barcode")), (Str.strip s1).
  repeat split; try done; apply strip_idemp.
Qed.

Lemma build_filename_to_meta_invariant (P : meta → Prop)
    (items : list json) (m0 m : meta) (tr : list event) :
  (∀ obj m1 m2 tr', P m1 → match_item obj m1 = (tr', Return m2) → P m2) →
  P m0 →
  build_filename_to_meta items m0 = (tr, Return m) → P m.
Proof.
  intros Hstep. revert m0 tr.
  induction items as [|obj items IH]; intros m0 tr H0.
  { by intros [= _ <-]. }
  cbn [build_filename_to_meta]. rewrite bind_unfold.
  destruct (match_item obj m0) as [tr1 [m1|e]] eqn:Hobj; [|done].
  destruct (build_filename_to_meta items m1) as [tr2 res] eqn:Hrest.
  simpl. intros [= _ ->]. eapply IH; [|exact Hrest]. by eapply Hstep.
Qed.

(** X2: the mapping built from a metadata list has pairwise distinct keys;
    every key is a non-empty filename without surrounding whitespace, every
    barcode stored is non-empty, not made of zeros only and trimmed, and
    every source stored is trimmed. *)
Theorem filename_to_meta_is_well_formed (items : list json) (m : meta)
    (tr : list event) :
  build_filename_to_meta items [] = (tr, Return m) →
  NoDup (Dict.keys m) ∧
  ∀ filename barcode source,
    Dict.get m filename = Some (barcode, source) →
    Str.nonempty filename = true ∧ Str.strip filename = filename ∧
    Str.nonempty barcode = true ∧ is_all_zeros barcode = false ∧
    Str.strip barcode = barcode ∧ Str.strip source = source.
Proof.
  apply (build_filename_to_meta_invariant (λ m,
    NoDup (Dict.keys m) ∧
    ∀ filename barcode source,
      Dict.get m filename = Some (barcode, source) →
      Str.nonempty filename = true ∧ Str.strip filename = filename ∧
      Str.nonempty barcode = true ∧ is_all_zeros barcode = false ∧
      Str.strip barcode = barcode ∧ Str.strip source = source)).
  - intros obj m1 m2 tr' [Hnodup Hentries] Hobj.
    apply match_item_Return in Hobj
      as [->|(f & b & s & -> & Hprops)]; [done|].
    split; [by apply dict_set_NoDup|].
    intros filename barcode source. rewrite dict_get_set.
    destruct (bool_decide_reflect (f = filename)) as [<-|_]; [|by auto].
    by intros [= <- <-].
  - split; [constructor|done].
Qed.

(** X3: an element that is an object with a non-empty filename, a usable
    barcode and a detection source that is null or a string is recorded
    under its trimmed filename with its trimmed barcode and source (the
    source being empty for null and for the string "null"); an earlier entry
    for that filename is overwritten in place, a new filename goes last,
    and the other entries are untouched. *)
Theorem well_formed_item_is_recorded (d ud : list (string * json))
    (f : string) (src : json) (m : meta) (entry : string * string) :
  json_get d "uploaded_image" = JDict ud →
  json_get ud "image_filename" = JStr f →
  Str.strip f ≠ "" →
  ¬ unusable_barcode (json_get d "barcode") →
  json_get d "barcode_detection_source" = src →
  src = JNull ∨ (∃ s, src = JStr s) →
  entry = (barcode_text (json_get d "barcode"), source_text src) →
  match_item (JDict d) m = ([], Return (Dict.set m (Str.strip f) entry)) ∧
  (∀ k, Dict.get (Dict.set m (Str.strip f) entry) k
        = if bool_decide (Str.strip f = k) then Some entry
          else Dict.get m k) ∧
  Dict.keys (Dict.set m (Str.strip f) entry)
  = if Dict.mem m (Str.strip f) then Dict.keys m
    else Dict.keys m ++ [Str.strip f].
Proof.
  intros Hud Hf Hname Hbarcode Hsrc Hkind ->.
  split; [|split; [intros k; apply dict_get_set|apply dict_keys_set]].
  unfold match_item. rewrite Hud.
  assert (py_or (JDict ud) (JDict []) = JDict ud) as ->.
  { by destruct ud. }
  simpl. rewrite Hf.
  assert (py_or (JStr f) (JStr "") = JStr f) as ->.
  { by destruct f. }
  simpl.
  destruct (Str.strip f) as [|c s] eqn:Hstrip; [done|]. simpl.
  rewrite (usable_barcode_kept _ Hbarcode), Hsrc.
  destruct Hkind as [->|[s' ->]]; [done|]. simpl.
  by destruct (bool_decide (s' = "null")).
Qed.

(** *** The loop that saves the images *)

Lemma saved_entries_length filenames zip_entries m :
  length (saved_entries filenames zip_entries m)
  = length (filter (λ f, is_Some (zip_entries !! f)) filenames).
Proof.
  unfold saved_entries. induction filenames as [|f filenames IH]; [done|].
  cbn [omap list_omap]. rewrite filter_cons.
  destruct (zip_entries !! f) as [data|]; simpl; [by f_equal|done].
Qed.

Lemma log_records_cons ev tr :
  log_records (ev :: tr)
  = match ev with Log lv m => (lv, m) :: log_records tr | _ => log_records tr end.
Proof. by destruct ev. Qed.

(** X4: the loop over the sorted filenames passes over every filename that
    the archive lacks, logging one warning for it and leaving the counter
    alone: it ends as the loop over the found filenames alone ends, with
    the same result and the same writes, and its log records are warnings
    for missing filenames, in order.  When it returns, which it does
    whenever no operation on the file system fails, there is one warning
    per missing filename and the counter is advanced by the number of
    filenames found. *)
Theorem missing_files_are_skipped (fs : disk) (filenames : list string)
    (zip_entries : gmap string bytes) (m : meta) (out mp : string)
    (counter : Z) :
  ∃ tr tr' res,
    write_images fs filenames zip_entries m out mp counter = (tr, res) ∧
    write_images fs (filter (λ f, is_Some (zip_entries !! f)) filenames)
      zip_entries m out mp counter = (tr', res) ∧
    writes tr = writes tr' ∧
    log_records tr' = [] ∧
    log_records tr
    `prefix_of` (λ f, (WARNING, MsgMissingInZip f))
                  <$> filter (λ f, zip_entries !! f = None) filenames ∧
    (∀ c, res = Return c →
       c = counter + Z.of_nat (length
             (filter (λ f, is_Some (zip_entries !! f)) filenames)) ∧
       log_records tr
       = (λ f, (WARNING, MsgMissingInZip f))
           <$> filter (λ f, zip_entries !! f = None) filenames) ∧
    ((∀ op, fs op = None) → ∃ c, res = Return c).
Proof.
  revert counter. induction filenames as [|f filenames IH]; intros counter.
  { exists [], [], (Return counter). simpl. rewrite Z.add_0_r.
    split; [done|]. split; [done|]. split; [done|]. split; [done|].
    split; [done|]. split; [by intros c [= <-]|]. intros _. by eexists. }
  rewrite !filter_cons. cbn [write_images].
  destruct (zip_entries !! f) as [data|] eqn:Hf; simpl.
  - cbn [write_images]. rewrite Hf.
    destruct (default ("", "") (Dict.get m f)) as [barcode source].
    rewrite !bind_unfold.
    destruct (file_operation_cases fs (SaveImage (counter + 1))
                (WriteImage (path_join out (image_name (counter + 1))) data))
      as [[_ ->]|(e & He & ->)].
    2: { exists [], [], (Raise e). repeat split; try done.
         - apply prefix_nil.
         - intros Hfs. by rewrite Hfs in He. }
    destruct (file_operation_cases fs (AppendLine (counter + 1))
                (AppendMeta mp (metadata_line barcode source)))
      as [[_ ->]|(e & He & ->)].
    2: { eexists _, _, (Raise e). repeat split; try done.
         - apply prefix_nil.
         - intros Hfs. by rewrite Hfs in He. }
    destruct (IH (counter + 1))
      as (tr & tr' & res & -> & -> & Hw & Hlog' & Hlog & Hret & Hfs).
    eexists _, _, res. split; [done|]. split; [done|].
    simpl. rewrite !writes_cons. simpl.
    split; [by rewrite Hw|]. split; [done|]. split; [done|].
    split; [|done].
    intros c Hc. destruct (Hret c Hc) as [-> ->]. split; [lia|done].
  - destruct (IH counter)
      as (tr & tr' & res & -> & -> & Hw & Hlog' & Hlog & Hret & Hfs).
    eexists _, _, res. split; [done|]. split; [done|].
    simpl. rewrite writes_cons. simpl.
    split; [done|]. split; [done|]. split; [by apply prefix_cons|].
    split; [|done].
    intros c Hc. destruct (Hret c Hc) as [-> ->]. done.
Qed.

(** *** Whole rows *)

Lemma write_images_prefix fs filenames zip_entries m out mp counter :
  writes (write_images fs filenames zip_entries m out mp counter).1
  `prefix_of` expected_writes out mp counter
                (saved_entries filenames zip_entries m).
Proof.
  revert counter. induction filenames as [|f filenames IH]; intros counter.
  { done. }
  cbn [write_images]. unfold saved_entries. cbn [omap list_omap].
  fold (saved_entries filenames zip_entries m).
  destruct (zip_entries !! f) as [data|]; simpl.
  2: { specialize (IH counter).
       destruct (write_images fs filenames zip_entries m out mp counter).
       simpl in *. by rewrite writes_cons. }
  destruct (default ("", "") (Dict.get m f)) as [barcode source].
  rewrite bind_unfold.
  destruct (file_operation_cases fs (SaveImage (counter + 1))
              (WriteImage (path_join out (image_name (counter + 1))) data))
    as [[_ ->]|(e & He & ->)]; simpl.
  2: { apply prefix_nil. }
  rewrite bind_unfold.
  destruct (file_operation_cases fs (AppendLine (counter + 1))
              (AppendMeta mp (metadata_line barcode source)))
    as [[_ ->]|(e & He & ->)]; simpl.
  2: { rewrite writes_cons. simpl. apply prefix_cons, prefix_nil. }
  specialize (IH (counter + 1)).
  destruct (write_images fs filenames zip_entries m out mp (counter + 1)).
  simpl in *. rewrite !writes_cons. simpl. by do 2 apply prefix_cons.
Qed.

(** X5: a row whose JSON cell parses to a non-empty list, whose archive is
    fetched and decoded to a non-empty mapping and whose metadata list is
    matched without error saves, in sorted filename order, the matched
    filenames that the archive holds, each with its content under the next
    counter value and its metadata line: all of them when the row returns,
    the counter being then advanced by their number, and the first of them
    when an operation on the file system raises.  The row returns whenever
    no operation on the file system fails. *)
Theorem row_saves_the_matched_files net fs r zf jf start out mp
    trj x objs tr0 zip_bytes zip_entries m :
  safe_json_loads (get_field_value r jf) = (trj, Return (JList (x :: objs))) →
  Str.nonempty (Str.strip (default "" (get_field_value r zf))) = true →
  download_bytes net (Str.strip (default "" (get_field_value r zf))) 3
  = (tr0, Return (Some zip_bytes)) →
  zip_bytes ≠ [] →
  extract_zip_entries zip_bytes = ([], Return zip_entries) →
  zip_entries ≠ ∅ →
  build_filename_to_meta (x :: objs) [] = ([], Return m) →
  ∃ trw res,
    process_shelf_tags_row net fs r zf jf start out mp
    = (trj ++ tr0 ++ trw, res) ∧
    writes trw
    `prefix_of` expected_writes out mp start
                  (saved_entries (py_sorted sort_key (Dict.keys m))
                     zip_entries m) ∧
    (images_written trw).*2
    `prefix_of` omap (λ f, zip_entries !! f)
                  (py_sorted sort_key (Dict.keys m)) ∧
    (∀ c, res = Return c →
       c = start + Z.of_nat (length
             (filter (λ f, is_Some (zip_entries !! f)) (Dict.keys m))) ∧
       writes trw
       = expected_writes out mp start
           (saved_entries (py_sorted sort_key (Dict.keys m)) zip_entries m) ∧
       (images_written trw).*2
       = omap (λ f, zip_entries !! f) (py_sorted sort_key (Dict.keys m))) ∧
    ((∀ op, fs op = None) → ∃ c, res = Return c).
Proof.
  intros Hjson Hurl Hfetch Hzb Hzip Hze Hbuild.
  rewrite process_shelf_tags_row_unfold, Hjson, bind_unfold.
  rewrite row_after_parse_list, Hfetch, bind_unfold by done.
  destruct zip_bytes as [|b zb]; [done|].
  rewrite Hzip, bind_unfold, bool_decide_false, Hbuild, bind_unfold by done.
  pose proof (write_images_prefix fs (py_sorted sort_key (Dict.keys m))
                zip_entries m out mp start) as Hprefix.
  destruct (write_images_order fs (py_sorted sort_key (Dict.keys m))
              zip_entries m out mp start) as [Horder Hall].
  destruct (write_images_spec fs (py_sorted sort_key (Dict.keys m))
              zip_entries m out mp start)
    as (trw & resw & saved & half & Hrun & _ & Hw & _ & Hres).
  rewrite Hrun in Hprefix, Horder, Hall. simpl in Hprefix, Horder, Hall.
  destruct (with_metadata_file_cases fs
              (write_images fs (py_sorted sort_key (Dict.keys m))
                 zip_entries m out mp start))
    as [(Hopen & Hclose & ->)|[(e & He & ->)|(e & _ & He & ->)]];
    rewrite ?Hrun; simpl.
  - exists trw, resw. split; [done|]. split; [done|]. split; [done|]. split.
    + intros c ->. destruct Hres as (-> & -> & ->).
      rewrite app_nil_r in Hw. split; [|split; [done|by eapply Hall]].
      f_equal. rewrite saved_entries_length. f_equal.
      apply Permutation_length. by rewrite py_sorted_Permutation.
    + intros Hfs. destruct resw as [c|e]; [by eexists|].
      destruct Hres as [op Hop]. by rewrite Hfs in Hop.
  - exists [], (Raise e). split; [done|].
    split; [apply prefix_nil|]. split; [apply prefix_nil|].
    split; [done|]. intros Hfs. by rewrite Hfs in He.
  - exists trw, (Raise e). split; [done|]. split; [done|]. split; [done|].
    split; [done|]. intros Hfs. by rewrite Hfs in He.
Qed.

(** X6: a row that raises an exception which no operation on the file
    system raised has written no image and appended no metadata line: the
    exceptions of the fetch, of the decoding of the archive and of the
    matching of the metadata come before the first write.  So it is with
    every row that raises when no operation on the file system fails. *)
Theorem failed_row_writes_nothing net fs r zf jf start out mp tr e :
  process_shelf_tags_row net fs r zf jf start out mp = (tr, Raise e) →
  (∀ op, fs op ≠ Some e) →
  images_written tr = [] ∧ lines_appended tr = [].
Proof.
  intros Hrow Hfs.
  apply row_image_paths in Hrow as (_ & _ & _ & [Hw|[op Hop]]).
  - by apply no_writes_no_output.
  - by destruct (Hfs op).
Qed.

(** X7: a row whose archive URL is missing or empty once trimmed is skipped
    with an information record: it returns the counter unchanged, writes
    nothing and makes no request, whatever its JSON cell holds. *)
Theorem missing_url_skips_row net fs r zf jf start out mp :
  Str.strip (default "" (get_field_value r zf)) = "" →
  ∃ tr,
    process_shelf_tags_row net fs r zf jf start out mp = (tr, Return start) ∧
    images_written tr = [] ∧ lines_appended tr = [] ∧
    network_events tr = [] ∧
    last (log_records tr) = Some (INFO, MsgSkipNoUrl zf).
Proof.
  intros Hurl.
  rewrite process_shelf_tags_row_unfold, bind_unfold, Hurl.
  destruct (safe_json_loads_returns (get_field_value r jf))
    as (trj & items & -> & Hwj & Hnj).
  unfold row_after_parse. simpl.
  eexists. split; [done|].
  assert (Hw : writes (trj ++ [Log INFO (MsgSkipNoUrl zf)]) = []).
  { by rewrite writes_app, Hwj. }
  destruct (no_writes_no_output _ Hw) as [-> ->].
  rewrite network_events_app, Hnj. repeat split.
  unfold log_records. rewrite omap_app. cbn [omap list_omap].
  apply last_snoc.
Qed.

(** *** More on the fetch *)

Lemma download_loop_first_raise net url max_retries failed a rest last_err e :
  (∀ j, j ∈ failed →
        ∃ e', net url j = Fails e' ∧ is_network_error e' = true) →
  net url a = Fails e → is_network_error e = false →
  ∃ tr, download_loop net url max_retries (failed ++ a :: rest) last_err
        = (tr, Raise e) ∧
        network_events tr = failed_attempts url failed ++ [UrlOpen url a].
Proof.
  intros Hfail Ha He. revert last_err.
  induction failed as [|j failed IH]; intros last_err.
  { rewrite app_nil_l. cbn [download_loop]. simpl. rewrite Ha, He.
    by eexists. }
  rewrite <-app_comm_cons. cbn [download_loop]. simpl.
  destruct (Hfail j) as (e' & -> & ->); [by left|].
  destruct (IH (λ j' Hj', Hfail j' (list_elem_of_further _ _ _ Hj')) (Some e'))
    as (tr & -> & Hn).
  eexists. split; [done|].
  rewrite !network_events_cons. simpl. by rewrite Hn.
Qed.

(** X8: an exception of an attempt that is not one of the network errors
    named by the except clause is not retried: the fetch raises it to the
    caller at once, after the waits of the failed attempts before it, with
    no wait and no request after it. *)
Theorem fetch_raises_other_exceptions (net : network) (url : string)
    (max_retries k : Z) (e : exn) :
  1 ≤ k ≤ max_retries →
  (∀ j, 1 ≤ j < k →
        ∃ e', net url j = Fails e' ∧ is_network_error e' = true) →
  net url k = Fails e →
  is_network_error e = false →
  ∃ tr, download_bytes net url max_retries = (tr, Raise e) ∧
        network_events tr
        = failed_attempts url (seqZ 1 (k - 1)) ++ [UrlOpen url k].
Proof.
  intros Hk Hfail Hraise He. unfold download_bytes.
  assert (Hsplit : seqZ 1 max_retries
                   = seqZ 1 (k - 1) ++ k :: seqZ (Z.succ k) (max_retries - k)).
  { replace max_retries with ((k - 1) + (max_retries - k + 1)) at 1 by lia.
    rewrite seqZ_app, (seqZ_cons (1 + (k - 1))) by lia.
    do 2 f_equal; [lia|]. f_equal; lia. }
  rewrite Hsplit. apply download_loop_first_raise; [|done..].
  intros j Hj%elem_of_seqZ. apply Hfail. lia.
Qed.

Lemma seconds_slept_cons ev tr :
  seconds_slept (ev :: tr)
  = match ev with Sleep s => s :: seconds_slept tr | _ => seconds_slept tr end.
Proof. by destruct ev. Qed.

Lemma download_loop_waits net url max_retries attempts last_err :
  Forall (λ a, 1 ≤ a) attempts →
  Forall (λ s, 2 ≤ s ≤ 10)
    (seconds_slept (download_loop net url max_retries attempts last_err).1) ∧
  (length (seconds_slept
             (download_loop net url max_retries attempts last_err).1)
   ≤ length attempts)%nat.
Proof.
  intros Hattempts. revert last_err.
  induction Hattempts as [|a attempts Ha _ IH]; intros last_err.
  { destruct last_err; simpl; split; (constructor || lia). }
  cbn [download_loop]. simpl.
  destruct (net url a) as [b|e]; simpl; [split; [constructor|lia]|].
  destruct (is_network_error e); simpl; [|split; [constructor|lia]].
  destruct (IH (Some e)) as [Hs Hl].
  destruct (download_loop net url max_retries attempts (Some e)) as [tr res].
  simpl in *. split; [|lia]. constructor; [|done].
  assert (2 ^ 1 ≤ 2 ^ a) by (apply Z.pow_le_mono_r; lia). lia.
Qed.

Lemma sum_bounded (l : list Z) :
  Forall (λ s, 2 ≤ s ≤ 10) l → foldr Z.add 0 l ≤ 10 * Z.of_nat (length l).
Proof. induction 1; simpl; lia. Qed.

(** X9: every wait of the fetch lasts between 2 and 10 seconds, there are
    at most max_retries of them, and so the fetch sleeps at most
    10 * max_retries seconds in all. *)
Theorem fetch_waits_are_bounded (net : network) (url : string)
    (max_retries : Z) :
  Forall (λ s, 2 ≤ s ≤ 10)
    (seconds_slept (download_bytes net url max_retries).1) ∧
  (length (seconds_slept (download_bytes net url max_retries).1)
   ≤ Z.to_nat max_retries)%nat ∧
  foldr Z.add 0 (seconds_slept (download_bytes net url max_retries).1)
  ≤ 10 * Z.max 0 max_retries.
Proof.
  unfold download_bytes.
  destruct (download_loop_waits net url max_retries (seqZ 1 max_retries) None)
    as [Hs Hl].
  { apply Forall_forall. intros a Ha%elem_of_seqZ. lia. }
  rewrite length_seqZ in Hl. split; [done|]. split; [done|].
  etrans; [by apply sum_bounded|]. lia.
Qed.

(** *** More on the field lookup *)

Lemma dict_get_elem_of {V} (d : Dict.t V) (k : string) (v : V) :
  Dict.get d k = Some v → (k, v) ∈ d.
Proof.
  induction d as [|[k0 v0] d IH]; simpl; [done|].
  destruct (bool_decide_reflect (k0 = k)) as [->|_].
  - intros [= ->]. by left.
  - intros ?. right. by apply IH.
Qed.

Lemma first_normalized_match_Some items norm v :
  first_normalized_match items norm = Some v →
  ∃ k, (k, v) ∈ items ∧ normalize_field_name k = norm.
Proof.
  induction items as [|[k0 v0] items IH]; simpl; [done|].
  destruct (bool_decide_reflect (normalize_field_name k0 = norm)) as [Hk|_].
  - intros [= ->]. exists k0. split; [by left|done].
  - intros (k & Hin & Hk)%IH. exists k. split; [by right|done].
Qed.

(** X10: a field lookup only ever returns a value of the row, stored under
    a key that equals the requested name up to whitespace; and it returns
    absent exactly when no key of the row equals the requested name up to
    whitespace. *)
Theorem field_lookup_finds_a_matching_key (r : row) (desired_field : string) :
  (∀ v, get_field_value r desired_field = Some v →
        ∃ k, (k, v) ∈ r ∧
             normalize_field_name k = normalize_field_name desired_field) ∧
  (get_field_value r desired_field = None ↔
   ∀ k v, (k, v) ∈ r →
          normalize_field_name k ≠ normalize_field_name desired_field).
Proof.
  unfold get_field_value, Dict.mem.
  destruct (bool_decide_reflect (is_Some (Dict.get r desired_field)))
    as [[v0 Hv0]|Hnone].
  - split.
    + intros v Hv. exists desired_field. split; [|done].
      apply dict_get_elem_of. congruence.
    + rewrite Hv0. split; [done|]. intros Hno.
      by destruct (Hno desired_field v0 (dict_get_elem_of _ _ _ Hv0)).
  - split; [apply first_normalized_match_Some|]. split.
    + intros Hnot k v Hin Hk.
      destruct (list_elem_of_split _ _ Hin) as (before & after & ->).
      clear Hnone Hin. induction before as [|[k' v'] before IH]; simpl in Hnot.
      * by rewrite bool_decide_true in Hnot.
      * destruct (bool_decide (normalize_field_name k' = _)); [done|].
        by apply IH.
    + apply first_normalized_match_none.
Qed.

(** *** More on the numeric suffix *)

Lemma int_of_digits_nonneg (s : string) (acc : Z) :
  0 ≤ acc → Str.all Char.isdigit s = true → 0 ≤ Str.int_of_digits acc s.
Proof.
  revert acc. induction s as [|c s IH]; intros acc Hacc; simpl; [done|].
  intros [Hc Hs]%andb_true_iff. apply IH; [|done].
  unfold Char.isdigit in Hc. apply andb_true_iff in Hc as [Hc _].
  apply N.leb_le in Hc. unfold Char.digit_value. lia.
Qed.

(** X11: a numeric suffix is never negative (a minus sign in front of the
    digits is not part of it), a filename without a dot has none, and so
    the number in a sort key is never negative either. *)
Theorem numeric_suffix_is_natural (filename : string) :
  (∀ n, parse_int_suffix_from_filename filename = Some n →
        0 ≤ n ∧ Str.mem "."%char filename = true) ∧
  (Str.mem "."%char filename = false →
   parse_int_suffix_from_filename filename = None) ∧
  0 ≤ (sort_key filename).1.
Proof.
  assert (Hsome : ∀ n, parse_int_suffix_from_filename filename = Some n →
                       0 ≤ n ∧ Str.mem "."%char filename = true).
  { intros n (pre & ds & ext & -> & _ & Hds & _ & _ & _ & ->)
      %parse_int_suffix_from_filename_spec.
    split; [by apply int_of_digits_nonneg|].
    rewrite !mem_app. simpl. by rewrite !orb_true_r. }
  split; [done|]. split.
  - intros Hnodot.
    destruct (parse_int_suffix_from_filename filename) as [n|] eqn:Hn; [|done].
    destruct (Hsome n eq_refl) as [_ Hdot]. congruence.
  - unfold sort_key. simpl.
    destruct (parse_int_suffix_from_filename filename) as [n|] eqn:Hn; simpl.
    + by destruct (Hsome n eq_refl).
    + done.
Qed.

Lemma string_of_uint_digits (d : Decimal.uint) :
  Str.all Char.isdigit (NilEmpty.string_of_uint d) = true.
Proof. induction d; simpl; [done|by rewrite ?IHd..]. Qed.

Lemma int_of_digits_revapp (d d' : Decimal.uint) :
  Str.int_of_digits (Z.of_N (DecimalPos.Unsigned.of_lu d'))
    (NilEmpty.string_of_uint d)
  = Z.of_N (DecimalPos.Unsigned.of_lu (Decimal.revapp d d')).
Proof.
  revert d'. induction d; intros d'; [done|..];
    cbn [NilEmpty.string_of_uint Str.int_of_digits Decimal.revapp];
    rewrite <-IHd; f_equal;
    cbn [DecimalPos.Unsigned.of_lu]; unfold Char.digit_value; simpl; lia.
Qed.

Lemma int_of_digits_to_uint (p : positive) :
  Str.int_of_digits 0 (NilEmpty.string_of_uint (Pos.to_uint p)) = Zpos p.
Proof.
  etrans; [exact (int_of_digits_revapp (Pos.to_uint p) Decimal.Nil)|].
  change (Decimal.revapp (Pos.to_uint p) Decimal.Nil)
    with (Decimal.rev (Pos.to_uint p)).
  by rewrite <-DecimalPos.Unsigned.of_uint_alt, DecimalPos.Unsigned.of_to.
Qed.

Lemma string_of_uint_nonempty (p : positive) :
  Str.nonempty (NilEmpty.string_of_uint (Pos.to_uint p)) = true.
Proof.
  pose proof (DecimalPos.Unsigned.to_uint_nonnil p) as Hp.
  by destruct (Pos.to_uint p).
Qed.

(** X12: the name written for counter value n parses back to n: the numeric
    suffix of "n.heif" is n for n >= 0, and |n| for a negative n, whose
    minus sign is left out. *)
Theorem image_name_suffix_round_trip (n : Z) :
  parse_int_suffix_from_filename (image_name n) = Some (Z.abs n).
Proof.
  unfold parse_int_suffix_from_filename, image_name, Str.of_int.
  destruct n as [|p|p]; [done|..]; simpl Z.to_int; simpl Z.abs;
    cbn [NilEmpty.string_of_int].
  - rewrite (proj2 (search_digits_before_extension_spec _
               (NilEmpty.string_of_uint (Pos.to_uint p)))).
    { simpl. f_equal. apply int_of_digits_to_uint. }
    exists "", "heif". rewrite str_app_nil_l.
    repeat split; try done.
    + apply string_of_uint_nonempty.
    + apply string_of_uint_digits.
    + by intros [|??] ?.
  - rewrite (proj2 (search_digits_before_extension_spec _
               (NilEmpty.string_of_uint (Pos.to_uint p)))).
    { simpl. f_equal. apply int_of_digits_to_uint. }
    exists "-", "heif".
    repeat split; try done.
    + apply string_of_uint_nonempty.
    + apply string_of_uint_digits.
    + intros [|c' [|??]] c; [|done..]. by intros [= <-].
Qed.

(** *** Whole runs *)

(** X13: a run of the row loop never raises; its metadata lines all go to
    the one metadata file and are at most as many as its images, and its
    final counter is at most the first one plus the number of images.  When
    no row raises after it has saved an image, the writes of the run,
    failed rows included, are for each saved image in turn the image under
    the next counter value followed by its metadata line; the final
    counter is then the first one plus the number of images, which is also
    the number of metadata lines. *)
Theorem run_keeps_images_and_lines_in_step world disks args mp idx rows c p :
  ∃ tr final,
    process_rows world disks args mp idx rows c p = (tr, Return final) ∧
    Forall (λ line, line.1 = mp) (lines_appended tr) ∧
    (length (lines_appended tr) ≤ length (images_written tr))%nat ∧
    c ≤ final ≤ c + Z.of_nat (length (images_written tr)) ∧
    (no_partial_row world disks args mp idx rows c p →
     ∃ saved,
       writes tr = expected_writes (arg_out args) mp c saved ∧
       final = c + Z.of_nat (length (images_written tr)) ∧
       length (lines_appended tr) = length (images_written tr)).
Proof.
  destruct (process_rows_returns world disks args mp idx rows c p)
    as (tr & final & Hrun & Hle & Hlines & Hmp & _).
  exists tr, final. split; [done|]. split; [done|]. split; [done|].
  split; [done|]. intros Hclean.
  destruct (process_rows_writes _ _ _ _ _ _ _ _ _ _ Hrun Hclean)
    as (saved & Hw & ->).
  exists saved. split; [done|].
  rewrite <-images_written_writes, <-lines_appended_writes, Hw,
    images_written_expected, lines_appended_expected.
  rewrite length_zip, !length_fmap, length_seqZ. split; [|lia].
  f_equal. lia.
Qed.

Lemma images_written_between_logs lv m lv' m' tr :
  images_written (Log lv m :: tr ++ [Log lv' m']) = images_written tr.
Proof.
  unfold images_written. cbn [omap list_omap]. rewrite omap_app. simpl.
  apply app_nil_r.
Qed.

Lemma lines_appended_between_logs lv m lv' m' tr :
  lines_appended (Log lv m :: tr ++ [Log lv' m']) = lines_appended tr.
Proof.
  unfold lines_appended. cbn [omap list_omap]. rewrite omap_app. simpl.
  apply app_nil_r.
Qed.

(** X14: [main] never raises.  On an empty manifest it only logs a warning.
    Otherwise it logs the number of rows, processes them, and ends on the
    record that reports the final counter of the row loop, which is at most
    the start value plus the number of images written; its metadata lines
    all go to metadata.txt in the output directory and are at most as many
    as its images.  When no row raises after it has saved an image, the
    counter reported is the start value plus the number of images written,
    and the metadata lines are as many as the images. *)
Theorem main_reports_the_images_saved world disks args rows :
  ∃ tr,
    main world disks args rows = (tr, Return tt) ∧
    (length (lines_appended tr) ≤ length (images_written tr))%nat ∧
    Forall (λ line, line.1 = path_join (arg_out args) "metadata.txt")
      (lines_appended tr) ∧
    match rows with
    | [] => tr = [Log WARNING MsgNoRows]
    | _ =>
        ∃ tr0 final,
          tr = Log INFO (MsgLoaded (length rows)) :: tr0
               ++ [Log INFO (MsgDone final (arg_out args)
                     (path_join (arg_out args) "metadata.txt"))] ∧
          process_rows world disks args
            (path_join (arg_out args) "metadata.txt") 0 rows
            (arg_start args) 0 = (tr0, Return final) ∧
          arg_start args ≤ final
          ≤ arg_start args + Z.of_nat (length (images_written tr)) ∧
          (no_partial_row world disks args
             (path_join (arg_out args) "metadata.txt") 0 rows
             (arg_start args) 0 →
           final = arg_start args + Z.of_nat (length (images_written tr)) ∧
           length (lines_appended tr) = length (images_written tr))
    end.
Proof.
  unfold main. destruct rows as [|r rows].
  { exists [Log WARNING MsgNoRows]. by repeat split. }
  destruct (process_rows_returns world disks args
              (path_join (arg_out args) "metadata.txt") 0 (r :: rows)
              (arg_start args) 0)
    as (tr & final & Hrun & Hle & Hlines & Hmp & _).
  rewrite !bind_unfold. cbn [emit]. rewrite Hrun. simpl.
  eexists. split; [done|].
  rewrite !images_written_between_logs, !lines_appended_between_logs.
  split; [done|]. split; [done|].
  exists tr, final. split; [done|]. split; [done|]. split; [done|].
  intros Hclean.
  destruct (process_rows_writes _ _ _ _ _ _ _ _ _ _ Hrun Hclean)
    as (saved & Hw & ->).
  rewrite <-images_written_writes, <-lines_appended_writes, Hw,
    images_written_expected, lines_appended_expected.
  rewrite length_zip, !length_fmap, length_seqZ. split; [|lia].
  f_equal. lia.
Qed.

Lemma process_rows_without_limit world disks args mp idx rows c p p' :
  process_rows world disks (without_limit args) mp idx rows c p
  = process_rows world disks (without_limit args) mp idx rows c p'.
Proof.
  revert idx c p p'. induction rows as [|r rows IH]; intros idx c p p'.
  { done. }
  rewrite !process_rows_step by (by left).
  destruct (process_shelf_tags_row _ _ _ _ _ _ _ _) as [tr [c'|e]].
  - by rewrite (IH _ _ (p + 1) (p' + 1)).
  - by rewrite (IH _ _ p p').
Qed.

(** X15: a cap on the number of rows only truncates the run: a capped run
    is the uncapped run of an initial segment of the rows, rows are neither
    passed over nor reordered; and a negative cap processes no row at all,
    whereas the cap 0 means no cap. *)
Theorem row_cap_truncates_the_run world disks args mp idx rows c p :
  (∃ k, (k ≤ length rows)%nat ∧
        ∀ p', process_rows world disks args mp idx rows c p
              = process_rows world disks (without_limit args) mp idx
                  (take k rows) c p') ∧
  (arg_limit_rows args < 0 → 0 ≤ p →
   process_rows world disks args mp idx rows c p = ([], Return c)) ∧
  (arg_limit_rows args = 0 →
   process_rows world disks args mp idx rows c p
   = process_rows world disks (without_limit args) mp idx rows c p).
Proof.
  split; [|split].
  - revert idx c p. induction rows as [|r rows IH]; intros idx c p.
    { by exists 0%nat. }
    destruct (decide (arg_limit_rows args = 0 ∨ p < arg_limit_rows args))
      as [Hlimit|Hlimit].
    2: { exists 0%nat. split; [simpl; lia|]. intros p'.
         by rewrite process_rows_stop. }
    destruct (process_shelf_tags_row (world idx) (disks idx) r (arg_zip_field args)
                (arg_json_field args) c (arg_out args) mp)
      as [tr [c'|e]] eqn:Hrow.
    + destruct (IH (S idx) c' (p + 1)) as (k & Hk & Heq).
      exists (S k). split; [simpl; lia|]. intros p'.
      rewrite process_rows_step by done. cbn [take].
      rewrite process_rows_step by (by left).
      cbn [without_limit arg_zip_field arg_json_field arg_out].
      by rewrite Hrow, (Heq (p' + 1)).
    + destruct (IH (S idx) c p) as (k & Hk & Heq).
      exists (S k). split; [simpl; lia|]. intros p'.
      rewrite process_rows_step by done. cbn [take].
      rewrite process_rows_step by (by left).
      cbn [without_limit arg_zip_field arg_json_field arg_out].
      by rewrite Hrow, (Heq p').
  - intros Hneg Hp. destruct rows as [|r rows]; [done|].
    apply process_rows_stop. lia.
  - intros Hzero. revert idx c p.
    induction rows as [|r rows IH]; intros idx c p; [done|].
    rewrite !process_rows_step by (by left).
    cbn [without_limit arg_zip_field arg_json_field arg_out].
    destruct (process_shelf_tags_row _ _ _ _ _ _ _ _) as [tr [c'|e]];
      by rewrite IH.
Qed.

(** *** More on the elements of the metadata list *)

Lemma nonempty_false (s : string) : Str.nonempty s = false ↔ s = "".
Proof. by destruct s. Qed.

(** X16: an element that is not an object, or whose uploaded_image is
    missing, null or otherwise false, or whose image_filename is missing,
    false or blank, is passed over without any effect; an uploaded_image
    that is true but not an object, and an image_filename that is true but
    not a string, make the matching step raise AttributeError. *)
Theorem item_without_filename_is_skipped (obj : json) (m : meta) :
  ((∀ d, obj ≠ JDict d) → match_item obj m = ([], Return m)) ∧
  (∀ d, obj = JDict d →
     truthy (json_get d "uploaded_image") = false →
     match_item obj m = ([], Return m)) ∧
  (∀ d ud, obj = JDict d →
     json_get d "uploaded_image" = JDict ud →
     truthy (json_get ud "image_filename") = false
     ∨ (∃ s, json_get ud "image_filename" = JStr s ∧ Str.strip s = "") →
     match_item obj m = ([], Return m)) ∧
  (∀ d, obj = JDict d →
     truthy (json_get d "uploaded_image") = true →
     (∀ ud, json_get d "uploaded_image" ≠ JDict ud) →
     match_item obj m = ([], Raise AttributeError)) ∧
  (∀ d ud, obj = JDict d →
     json_get d "uploaded_image" = JDict ud →
     truthy (json_get ud "image_filename") = true →
     (∀ s, json_get ud "image_filename" ≠ JStr s) →
     match_item obj m = ([], Raise AttributeError)).
Proof.
  split; [|split; [|split; [|split]]].
  - intros Hobj. destruct obj as [| | | | | |d]; try done. by destruct (Hobj d).
  - intros d -> Hfalse. unfold match_item, py_or. by rewrite Hfalse.
  - intros d ud -> Hud Hname. unfold match_item. rewrite Hud.
    assert (Hget : get_method (py_or (JDict ud) (JDict [])) "image_filename"
                   = ([], Return (json_get ud "image_filename"))).
    { by destruct ud. }
    rewrite Hget. simpl.
    destruct Hname as [Hfalse|(s & -> & Hblank)].
    + unfold py_or. by rewrite Hfalse.
    + unfold py_or. simpl. destruct (Str.nonempty s); simpl; [|done].
      by rewrite Hblank.
  - intros d -> Htrue Hnodict. unfold match_item, py_or. rewrite Htrue.
    destruct (json_get d "uploaded_image") as [| | | | | |ud]; try done.
    by destruct (Hnodict ud).
  - intros d ud -> Hud Htrue Hnostr. unfold match_item. rewrite Hud.
    assert (Hget : get_method (py_or (JDict ud) (JDict [])) "image_filename"
                   = ([], Return (json_get ud "image_filename"))).
    { by destruct ud. }
    rewrite Hget. simpl. unfold py_or. rewrite Htrue.
    destruct (json_get ud "image_filename") as [| | | |s| |]; try done.
    by destruct (Hnostr s).
Qed.

Lemma digit_is_not_space (c : ascii) :
  Char.isdigit c = true → Char.isspace c = false.
Proof.
  unfold Char.isdigit, Char.isspace.
  intros [H1%N.leb_le H2%N.leb_le]%andb_true_iff.
  repeat (apply orb_false_iff; split); try apply andb_false_iff;
    rewrite ?N.leb_gt, ?N.eqb_neq; lia.
Qed.

Lemma rstrip_no_space (s : string) :
  Str.all (λ c, negb (Char.isspace c)) s = true → Str.rstrip s = s.
Proof.
  induction s as [|c s IH]; simpl; [done|].
  intros [Hc%negb_true_iff Hs]%andb_true_iff. rewrite (IH Hs), Hc.
  by destruct s.
Qed.

Lemma strip_no_space (s : string) :
  Str.all (λ c, negb (Char.isspace c)) s = true → Str.strip s = s.
Proof.
  intros Hs. unfold Str.strip.
  assert (Str.lstrip s = s) as ->; [|by apply rstrip_no_space].
  destruct s as [|c s]; [done|]. simpl in *.
  apply andb_true_iff in Hs as [Hc%negb_true_iff _]. by rewrite Hc.
Qed.

Lemma all_impl (p q : ascii → bool) (s : string) :
  (∀ c, p c = true → q c = true) →
  Str.all p s = true → Str.all q s = true.
Proof.
  intros Hpq. induction s as [|c s IH]; simpl; [done|].
  intros [Hc Hs]%andb_true_iff. by rewrite (Hpq c Hc), IH.
Qed.

Lemma int_of_digits_zeros (n : nat) : Str.int_of_digits 0 (zeros n) = 0.
Proof. induction n as [|n IH]; [done|]. simpl. exact IH. Qed.

Lemma of_int_text (n : Z) :
  n ≠ 0 →
  Str.strip (Str.of_int n) = Str.of_int n ∧
  Str.nonempty (Str.of_int n) = true ∧
  is_all_zeros (Str.of_int n) = false.
Proof.
  intros Hn. unfold Str.of_int.
  pose proof digit_is_not_space as Hdigit.
  destruct n as [|p|p]; [done|..]; simpl Z.to_int;
    cbn [NilEmpty.string_of_int].
  - split; [|split].
    + apply strip_no_space.
      eapply all_impl; [|apply string_of_uint_digits].
      intros c Hc. by rewrite (Hdigit c Hc).
    + apply string_of_uint_nonempty.
    + apply not_true_iff_false. intros [k Hk]%is_all_zeros_inv.
      pose proof (int_of_digits_to_uint p) as Hp.
      rewrite Hk, int_of_digits_zeros in Hp. done.
  - split; [|done].
    apply strip_no_space. simpl.
    eapply all_impl; [|apply string_of_uint_digits].
    intros c Hc. by rewrite (Hdigit c Hc).
Qed.

(** X17: a barcode given as a JSON integer is read as its decimal text:
    the number 0 counts as an all-zero barcode and is excluded, every other
    integer is a usable barcode and is recorded as its decimal text. *)
Theorem integer_barcode_is_its_decimal_text :
  unusable_barcode (JInt 0) ∧
  ∀ n, n ≠ 0 →
       ¬ unusable_barcode (JInt n) ∧ barcode_text (JInt n) = Str.of_int n.
Proof.
  split; [by apply (barcode_zeros (JInt 0) 0)|].
  intros n Hn. destruct (of_int_text n Hn) as (Hstrip & Hne & Hz).
  assert (Htext : barcode_text (JInt n) = Str.of_int n) by done.
  split; [|done].
  intros Hbad%unusable_barcode_filtered.
  by rewrite Htext, Hne, Hz in Hbad.
Qed.

(** X18: the JSON cell is parsed trimmed: whitespace around the text does
    not change the outcome; an absent or blank cell yields None without
    consulting the parser and without a record; a text that parses yields
    its value without a record; a text that does not parse yields None
    with one warning that carries the length of the trimmed text. *)
Theorem json_cell_is_parsed_trimmed (text : string) :
  safe_json_loads (Some text) = safe_json_loads (Some (Str.strip text)) ∧
  safe_json_loads None = ([], Return JNull) ∧
  (Str.strip text = "" → safe_json_loads (Some text) = ([], Return JNull)) ∧
  (∀ v, Str.strip text ≠ "" → json_loads (Str.strip text) = Some v →
        safe_json_loads (Some text) = ([], Return v)) ∧
  (Str.strip text ≠ "" → json_loads (Str.strip text) = None →
   safe_json_loads (Some text)
   = ([Log WARNING (MsgJsonFailed (String.length (Str.strip text)))],
      Return JNull)).
Proof.
  unfold safe_json_loads. rewrite strip_idemp.
  split; [done|]. split; [done|]. split; [by intros ->|].
  split.
  - intros v Hne ->. by destruct (Str.strip text).
  - intros Hne ->. by destruct (Str.strip text).
Qed.

End Pipeline.

(* ================================================================== *)
(** ** The properties on the example world *)

(** C1 (as stated) fails: a filename numbered 2000000000 is processed after
    the unnumbered cover.jpg, whose key is the sentinel 10^9. *)
Lemma unnumbered_before_large_number :
  parse_int_suffix_from_filename "x_2000000000.jpg" = Some 2000000000 ∧
  parse_int_suffix_from_filename "cover.jpg" = None ∧
  py_sorted sort_key ["x_2000000000.jpg"; "cover.jpg"]
  = ["cover.jpg"; "x_2000000000.jpg"] ∧
  ¬ StronglySorted numbered_first
      (py_sorted sort_key ["x_2000000000.jpg"; "cover.jpg"]).
Proof.
  repeat split; [done..|].
  change (py_sorted sort_key ["x_2000000000.jpg"; "cover.jpg"])
    with ["cover.jpg"; "x_2000000000.jpg"].
  intros Hsorted. apply StronglySorted_inv in Hsorted as [_ Hfirst].
  apply Forall_inv in Hfirst. exact Hfirst.
Qed.

Lemma processing_order_sentinel_witness :
  ["cover.jpg"; "img_10.jpg"; "img_2.jpg"]
  ≡ₚ ["img_2.jpg"; "img_10.jpg"; "cover.jpg"] ∧
  py_sorted sort_key ["cover.jpg"; "img_10.jpg"; "img_2.jpg"]
  = ["img_2.jpg"; "img_10.jpg"; "cover.jpg"].
Proof.
  assert (Hperm : ["cover.jpg"; "img_10.jpg"; "img_2.jpg"]
                  ≡ₚ ["img_2.jpg"; "img_10.jpg"; "cover.jpg"]).
  { exact (reverse_Permutation ["img_2.jpg"; "img_10.jpg"; "cover.jpg"]). }
  split; [exact Hperm|].
  exact (proj1 (proj2 (proj2 processing_order_sentinel)) _ Hperm).
Defined.

Lemma unusable_barcode_contributes_nothing_witness :
  unusable_barcode example_str_float example_str_container
    (json_get example_zero_item "barcode") ∧
  ∃ tr',
    process_shelf_tags_row example_json_loads example_str_float
      example_str_container example_zip_members example_network reliable
      (example_row "http://shelf/ok.zip" "[shelf without z.jpg]")
      "SHELF_TAGS" "SHELF_TAGS_IMAGES_URL" 0 "out" "out/metadata.txt"
    = (tr', Return 3) ∧
    images_written tr'
    = [("out/1.heif", [Byte.x02]); ("out/2.heif", [Byte.x0a]);
       ("out/3.heif", [Byte.x0c])] ∧
    lines_appended tr'
    = [("out/metadata.txt", metadata_line "333" "scan");
       ("out/metadata.txt", metadata_line "111" "ocr");
       ("out/metadata.txt", metadata_line "222" "")].
Proof.
  assert (Hbad : unusable_barcode example_str_float example_str_container
                   (json_get example_zero_item "barcode")).
  { by apply (barcode_zeros _ _ _ 2). }
  split; [exact Hbad|].
  destruct (proj2 (proj2 (unusable_barcode_contributes_nothing
              example_json_loads example_str_float example_str_container
              example_zip_members example_zero_item Hbad))
            example_network reliable
            (example_row "http://shelf/ok.zip" "[shelf]")
            (example_row "http://shelf/ok.zip" "[shelf without z.jpg]")
            "SHELF_TAGS" "SHELF_TAGS_IMAGES_URL" 0 "out" "out/metadata.txt"
            example_items_before example_items_after
            [UrlOpen "http://shelf/ok.zip" 1;
             Log WARNING (MsgDownloadFailed 1 3 "http://shelf/ok.zip" URLError);
             Sleep 2; UrlOpen "http://shelf/ok.zip" 2;
             WriteImage "out/1.heif" [Byte.x02];
             AppendMeta "out/metadata.txt" (metadata_line "333" "scan");
             WriteImage "out/2.heif" [Byte.x0a];
             AppendMeta "out/metadata.txt" (metadata_line "111" "ocr");
             WriteImage "out/3.heif" [Byte.x0c];
             AppendMeta "out/metadata.txt" (metadata_line "222" "")]
            3 eq_refl eq_refl eq_refl)
    as (tr' & Hrun & Himages & Hlines & _).
  { vm_compute. reflexivity. }
  exists tr'. split; [exact Hrun|]. split; [exact Himages|exact Hlines].
Defined.


Lemma unusable_json_skips_row_witness :
  no_usable_metadata example_json_loads
    (get_field_value (example_row "http://shelf/ok.zip" "{oops")
       "SHELF_TAGS_IMAGES_URL") ∧
  ∃ tr,
    process_shelf_tags_row example_json_loads example_str_float
      example_str_container example_zip_members example_network reliable
      (example_row "http://shelf/ok.zip" "{oops")
      "SHELF_TAGS" "SHELF_TAGS_IMAGES_URL" 5 "out" "out/metadata.txt"
    = (tr, Return 5) ∧
    images_written tr = [] ∧ lines_appended tr = [] ∧ network_events tr = [].
Proof.
  assert (Hcell : no_usable_metadata example_json_loads
            (get_field_value (example_row "http://shelf/ok.zip" "{oops")
               "SHELF_TAGS_IMAGES_URL")).
  { right. left. vm_compute. reflexivity. }
  split; [exact Hcell|].
  exact (proj1 (unusable_json_skips_row example_json_loads example_str_float
                  example_str_container example_zip_members example_network
                  reliable (example_row "http://shelf/ok.zip" "{oops")
                  "SHELF_TAGS" "SHELF_TAGS_IMAGES_URL" 5 "out"
                  "out/metadata.txt" Hcell)).
Defined.

Lemma failed_fetch_or_empty_archive_skips_row_witness :
  (download_bytes example_network "http://shelf/down.zip" 3).2 = Return None ∧
  ∃ tr,
    process_shelf_tags_row example_json_loads example_str_float
      example_str_container example_zip_members example_network reliable
      (example_row " http://shelf/down.zip " "[shelf]")
      "SHELF_TAGS" "SHELF_TAGS_IMAGES_URL" 4 "out" "out/metadata.txt"
    = (tr, Return 4) ∧
    images_written tr = [] ∧ lines_appended tr = [].
Proof.
  assert (Hfetch : (download_bytes example_network "http://shelf/down.zip" 3).2
                   = Return None).
  { vm_compute. reflexivity. }
  split; [exact Hfetch|].
  apply (failed_fetch_or_empty_archive_skips_row example_json_loads
           example_str_float example_str_container example_zip_members
           example_network reliable
           (example_row " http://shelf/down.zip " "[shelf]")
           "SHELF_TAGS" "SHELF_TAGS_IMAGES_URL" 4 "out" "out/metadata.txt"
           "http://shelf/down.zip").
  - vm_compute. reflexivity.
  - left. exact Hfetch.
Defined.

Lemma fetch_retries_then_gives_up_witness :
  (∃ tr,
     download_bytes example_network "http://shelf/ok.zip" 3
     = (tr, Return (Some [Byte.x50; Byte.x4b])) ∧
     network_events tr
     = [UrlOpen "http://shelf/ok.zip" 1; Sleep 2;
        UrlOpen "http://shelf/ok.zip" 2]) ∧
  (∃ tr,
     download_bytes example_network "http://shelf/down.zip" 3
     = (tr, Return None) ∧
     network_events tr
     = [UrlOpen "http://shelf/down.zip" 1; Sleep 2;
        UrlOpen "http://shelf/down.zip" 2; Sleep 4;
        UrlOpen "http://shelf/down.zip" 3; Sleep 8]).
Proof.
  split.
  - apply (proj1 (proj2 (fetch_retries_then_gives_up example_network
                           "http://shelf/ok.zip" 3))
             2 [Byte.x50; Byte.x4b]).
    + lia.
    + intros j Hj. assert (j = 1) as -> by lia.
      exists URLError. split; reflexivity.
    + reflexivity.
  - apply (proj2 (proj2 (fetch_retries_then_gives_up example_network
                           "http://shelf/down.zip" 3))).
    intros j _. exists TimeoutError. split; reflexivity.
Defined.

Lemma field_lookup_ignores_whitespace_witness :
  Dict.get (example_row "http://shelf/ok.zip" "[]") "SHELF_TAGS" = None ∧
  get_field_value (example_row "http://shelf/ok.zip" "[]") "SHELF_TAGS"
  = Some "http://shelf/ok.zip" ∧
  get_field_value (example_row "http://shelf/ok.zip" "[]")
    "SHELF_TAGS_IMAGES_URL" = Some "[]" ∧
  get_field_value (example_row "http://shelf/ok.zip" "[]") "BARCODE" = None.
Proof.
  split; [reflexivity|]. split; [|split].
  - apply (proj1 (proj1 (proj2 (field_lookup_ignores_whitespace
             (example_row "http://shelf/ok.zip" "[]") "SHELF_TAGS")) eq_refl)
             [] "SHELF_TAGS " "http://shelf/ok.zip"
             [("SHELF_TAGS_IMAGES_URL", "[]")]).
    + reflexivity.
    + reflexivity.
    + intros k' v' Hin. inversion Hin.
  - apply (proj1 (field_lookup_ignores_whitespace
             (example_row "http://shelf/ok.zip" "[]") "SHELF_TAGS_IMAGES_URL")).
    reflexivity.
  - apply (proj2 (proj1 (proj2 (field_lookup_ignores_whitespace
             (example_row "http://shelf/ok.zip" "[]") "BARCODE")) eq_refl)).
    intros k v Hin.
    apply list_elem_of_In in Hin. simpl in Hin.
    destruct Hin as [[= <- <-]|[[= <- <-]|[]]]; vm_compute; discriminate.
Defined.

(** C8 (as stated) fails: a row that raises after it has saved an image
    leaves the counter where it was, and the next row uses the same numbers
    again.  Here the first row cannot save its second image: it has saved
    out/1.heif when it raises, and the second row saves out/1.heif again.
    Likewise a run of the first row alone ends with the counter at 0, and
    a second run started at 0 writes out/1.heif over the first one's. *)
Lemma partial_row_numbers_are_reused :
  (∃ tr,
     process_rows example_json_loads example_str_float example_str_container
       example_zip_members (λ _, example_network)
       (λ idx, match idx with O => fails_at_image 2 | S _ => reliable end)
       example_arguments "out/metadata.txt" 0
       [example_row "http://shelf/ok.zip" "[shelf]";
        example_row "http://shelf/ok.zip" "[shelf]"]
       0 0 = (tr, Return 3) ∧
     (images_written tr).*1
     = ["out/1.heif"; "out/1.heif"; "out/2.heif"; "out/3.heif"] ∧
     ¬ NoDup (images_written tr).*1) ∧
  (∃ tr tr',
     process_rows example_json_loads example_str_float example_str_container
       example_zip_members (λ _, example_network) (λ _, fails_at_image 2)
       example_arguments "out/metadata.txt" 0
       [example_row "http://shelf/ok.zip" "[shelf]"]
       (arg_start example_arguments) 0 = (tr, Return 0) ∧
     process_rows example_json_loads example_str_float example_str_container
       example_zip_members (λ _, example_network) (λ _, reliable)
       example_arguments "out/metadata.txt" 0
       [example_row "http://shelf/ok.zip" "[shelf]"]
       0 0 = (tr', Return 3) ∧
     "out/1.heif" ∈ (images_written tr).*1 ∧
     "out/1.heif" ∈ (images_written tr').*1).
Proof.
  split.
  - eexists. split; [vm_compute; reflexivity|].
    split; [vm_compute; reflexivity|].
    vm_compute. intros Hnodup. apply NoDup_cons in Hnodup as [Hnotin _].
    apply Hnotin, list_elem_of_here.
  - eexists _, _. split; [vm_compute; reflexivity|].
    split; [vm_compute; reflexivity|].
    split; vm_compute; apply list_elem_of_here.
Qed.

Lemma image_numbers_never_reused_witness :
  ∃ tr tr',
    process_rows example_json_loads example_str_float example_str_container
      example_zip_members (λ _, example_network) (λ _, reliable)
      example_arguments "out/metadata.txt" 0
      [example_row "http://shelf/ok.zip" "[shelf]";
       example_row "http://shelf/ok.zip" "[shelf with a numeric source]";
       example_row "http://shelf/ok.zip" "[shelf without z.jpg]"]
      0 0 = (tr, Return 6) ∧
    process_rows example_json_loads example_str_float example_str_container
      example_zip_members (λ _, example_network) (λ _, fails_at_image 9)
      {| arg_out := "out"; arg_start := 6; arg_zip_field := "SHELF_TAGS";
         arg_json_field := "SHELF_TAGS_IMAGES_URL"; arg_limit_rows := 1 |}
      "out/metadata.txt" 0
      [example_row "http://shelf/ok.zip" "[shelf]";
       example_row "http://shelf/ok.zip" "[shelf]"]
      6 0 = (tr', Return 6) ∧
    (images_written tr).*1
    = ["out/1.heif"; "out/2.heif"; "out/3.heif";
       "out/4.heif"; "out/5.heif"; "out/6.heif"] ∧
    (images_written tr').*1
    = ["out/7.heif"; "out/8.heif"; "out/7.heif"; "out/8.heif"] ∧
    "out/6.heif" ≠ "out/7.heif".
Proof.
  eexists _, _. split; [vm_compute; reflexivity|].
  split; [vm_compute; reflexivity|].
  split; [vm_compute; reflexivity|].
  split; [vm_compute; reflexivity|].
  match goal with
  | |- _ ≠ _ =>
      refine (proj1 (proj2 (proj2 (proj2 (image_numbers_never_reused
                example_json_loads example_str_float example_str_container
                example_zip_members)))
              (λ _, example_network) (λ _, example_network)
              (λ _, reliable) (λ _, fails_at_image 9)
              example_arguments
              {| arg_out := "out"; arg_start := 6;
                 arg_zip_field := "SHELF_TAGS";
                 arg_json_field := "SHELF_TAGS_IMAGES_URL";
                 arg_limit_rows := 1 |}
              "out/metadata.txt" "out/metadata.txt"
              [example_row "http://shelf/ok.zip" "[shelf]";
               example_row "http://shelf/ok.zip"
                 "[shelf with a numeric source]";
               example_row "http://shelf/ok.zip" "[shelf without z.jpg]"]
              [example_row "http://shelf/ok.zip" "[shelf]";
               example_row "http://shelf/ok.zip" "[shelf]"]
              _ _ 6 6 _ _ eq_refl eq_refl _
              "out/6.heif" "out/7.heif" _ _))
  end.
  - vm_compute. reflexivity.
  - apply (proj1 (proj2 (proj2 (image_numbers_never_reused
             example_json_loads example_str_float example_str_container
             example_zip_members)))).
    intros i op. reflexivity.
  - vm_compute. reflexivity.
  - vm_compute. do 5 apply list_elem_of_further. apply list_elem_of_here.
  - vm_compute. apply list_elem_of_here.
Defined.

Lemma row_failure_is_isolated_witness :
  ∃ tr,
    process_shelf_tags_row example_json_loads example_str_float
      example_str_container example_zip_members example_network reliable
      (example_row "http://shelf/ok.zip" "[shelf with a numeric source]")
      "SHELF_TAGS" "SHELF_TAGS_IMAGES_URL" 3 "out" "out/metadata.txt"
    = (tr, Raise AttributeError) ∧
    ∃ tr' final,
      process_rows example_json_loads example_str_float example_str_container
        example_zip_members (λ _, example_network) (λ _, reliable)
        example_arguments
        "out/metadata.txt" 5
        [example_row "http://shelf/ok.zip" "[shelf]"] 3 1
      = (tr', Return final) ∧
      process_rows example_json_loads example_str_float example_str_container
        example_zip_members (λ _, example_network) (λ _, reliable)
        example_arguments
        "out/metadata.txt" 4
        [example_row "http://shelf/ok.zip" "[shelf with a numeric source]";
         example_row "http://shelf/ok.zip" "[shelf]"] 3 1
      = (tr ++ Log ERROR (MsgRowError 4 AttributeError) :: tr', Return final).
Proof.
  eexists. split; [vm_compute; reflexivity|].
  refine (proj1 (row_failure_is_isolated example_json_loads example_str_float
                   example_str_container example_zip_members
                   (λ _, example_network) (λ _, reliable) example_arguments
                   "out/metadata.txt"
                   4
                   (example_row "http://shelf/ok.zip"
                      "[shelf with a numeric source]")
                   [example_row "http://shelf/ok.zip" "[shelf]"]
                   3 1 _ AttributeError _ _)).
  - left. reflexivity.
  - vm_compute. reflexivity.
Defined.

Lemma non_string_source_aborts_row_witness :
  json_get example_bad_source_item "barcode_detection_source" = JInt 5 ∧
  (∀ m, match_item example_str_float example_str_container
          (JDict example_bad_source_item) m = ([], Raise AttributeError)) ∧
  build_filename_to_meta example_str_float example_str_container
    (example_items_before
     ++ JDict example_bad_source_item :: example_items_after) []
  = ([], Raise AttributeError).
Proof.
  assert (Hgood : ¬ unusable_barcode example_str_float example_str_container
                      (json_get example_bad_source_item "barcode")).
  { intros Hbad. inversion Hbad as [| |v Hblank|v n Hzeros].
    - vm_compute in Hblank. discriminate Hblank.
    - simpl in Hzeros. discriminate Hzeros. }
  destruct (non_string_source_aborts_row example_json_loads example_str_float
              example_str_container example_zip_members
              example_bad_source_item [("image_filename", JStr "img_7.jpg")]
              "img_7.jpg" (JInt 5) eq_refl eq_refl)
    as (Hitem & Hbuild & _).
  - vm_compute. discriminate.
  - exact Hgood.
  - reflexivity.
  - discriminate.
  - intros s. discriminate.
  - split; [reflexivity|]. split; [exact Hitem|].
    apply (Hbuild example_items_before example_items_after []
             [("img_10.jpg", ("111", "ocr")); ("cover.jpg", ("222", ""))]).
    vm_compute. reflexivity.
Defined.

Lemma filename_to_meta_is_well_formed_witness :
  ∃ m,
    build_filename_to_meta example_str_float example_str_container
      (example_items_before ++ JDict example_zero_item :: example_items_after)
      [] = ([], Return m) ∧
    Dict.keys m = ["img_10.jpg"; "cover.jpg"; "img_2.jpg"] ∧
    NoDup (Dict.keys m) ∧
    Dict.get m "cover.jpg" = Some ("222", "").
Proof.
  eexists. split; [vm_compute; reflexivity|].
  split; [vm_compute; reflexivity|].
  split; [|vm_compute; reflexivity].
  refine (proj1 (filename_to_meta_is_well_formed example_str_float
                   example_str_container
                   (example_items_before
                    ++ JDict example_zero_item :: example_items_after)
                   _ [] _)).
  vm_compute. reflexivity.
Defined.

Lemma well_formed_item_is_recorded_witness :
  match_item example_str_float example_str_container
    (example_item " img_2.jpg " (JStr " 333 ") (JStr " scan "))
    [("img_2.jpg", ("1", "old")); ("cover.jpg", ("222", ""))]
  = ([], Return [("img_2.jpg", ("333", "scan")); ("cover.jpg", ("222", ""))]).
Proof.
  refine (proj1 (well_formed_item_is_recorded example_str_float
                   example_str_container
                   [("uploaded_image",
                     JDict [("image_filename", JStr " img_2.jpg ")]);
                    ("barcode", JStr " 333 ");
                    ("barcode_detection_source", JStr " scan ")]
                   [("image_filename", JStr " img_2.jpg ")]
                   " img_2.jpg " (JStr " scan ")
                   [("img_2.jpg", ("1", "old")); ("cover.jpg", ("222", ""))]
                   ("333", "scan") eq_refl eq_refl _ _ eq_refl _ eq_refl)).
  - vm_compute. discriminate.
  - intros Hbad. inversion Hbad as [| |v Hblank|v n Hzeros].
    + vm_compute in Hblank. discriminate Hblank.
    + vm_compute in Hzeros. discriminate Hzeros.
  - right. by exists " scan ".
Defined.

Lemma row_saves_the_matched_files_witness :
  ∃ trw,
    process_shelf_tags_row example_json_loads example_str_float
      example_str_container example_zip_members example_network reliable
      (example_row "http://shelf/ok.zip" "[shelf]")
      "SHELF_TAGS" "SHELF_TAGS_IMAGES_URL" 0 "out" "out/metadata.txt"
    = ([UrlOpen "http://shelf/ok.zip" 1;
        Log WARNING (MsgDownloadFailed 1 3 "http://shelf/ok.zip" URLError);
        Sleep 2; UrlOpen "http://shelf/ok.zip" 2] ++ trw,
       Return 3) ∧
    (images_written trw).*2 = [[Byte.x02]; [Byte.x0a]; [Byte.x0c]].
Proof.
  destruct (row_saves_the_matched_files example_json_loads example_str_float
              example_str_container example_zip_members example_network
              reliable
              (example_row "http://shelf/ok.zip" "[shelf]")
              "SHELF_TAGS" "SHELF_TAGS_IMAGES_URL" 0 "out" "out/metadata.txt"
              []
              (example_item "img_10.jpg" (JStr "111") (JStr "ocr"))
              (example_item "cover.jpg" (JInt 222) JNull
               :: JDict example_zero_item :: example_items_after)
              [UrlOpen "http://shelf/ok.zip" 1;
               Log WARNING
                 (MsgDownloadFailed 1 3 "http://shelf/ok.zip" URLError);
               Sleep 2; UrlOpen "http://shelf/ok.zip" 2]
              [Byte.x50; Byte.x4b]
              (list_to_map [("img_2.jpg", [Byte.x02]);
                            ("img_10.jpg", [Byte.x0a]);
                            ("cover.jpg", [Byte.x0c]); ("z.jpg", [Byte.x00])])
              [("img_10.jpg", ("111", "ocr")); ("cover.jpg", ("222", ""));
               ("img_2.jpg", ("333", "scan"))])
    as (trw & res & Hrun & _ & _ & Hreturn & Hreliable).
  - vm_compute. reflexivity.
  - vm_compute. reflexivity.
  - vm_compute. reflexivity.
  - discriminate.
  - vm_compute. reflexivity.
  - intros Hempty. apply (f_equal (λ ze, ze !! "z.jpg")) in Hempty.
    vm_compute in Hempty. discriminate Hempty.
  - vm_compute. reflexivity.
  - destruct (Hreliable (λ _, eq_refl)) as [c Hres].
    destruct (Hreturn c Hres) as (Hc & _ & Himages).
    exists trw. split.
    + rewrite Hrun, Hres, Hc. reflexivity.
    + rewrite Himages. vm_compute. reflexivity.
Defined.

Lemma failed_row_writes_nothing_witness :
  ∃ tr,
    process_shelf_tags_row example_json_loads example_str_float
      example_str_container example_zip_members example_network
      (fails_at_image 5)
      (example_row "http://shelf/ok.zip" "[shelf with a numeric source]")
      "SHELF_TAGS" "SHELF_TAGS_IMAGES_URL" 3 "out" "out/metadata.txt"
    = (tr, Raise AttributeError) ∧
    images_written tr = [] ∧ lines_appended tr = [].
Proof.
  eexists. split; [vm_compute; reflexivity|].
  match goal with
  | |- images_written ?tr = [] ∧ _ =>
      apply (failed_row_writes_nothing example_json_loads example_str_float
               example_str_container example_zip_members example_network
               (fails_at_image 5)
               (example_row "http://shelf/ok.zip"
                  "[shelf with a numeric source]")
               "SHELF_TAGS" "SHELF_TAGS_IMAGES_URL" 3 "out" "out/metadata.txt"
               tr AttributeError)
  end.
  - vm_compute. reflexivity.
  - intros op. unfold fails_at_image.
    destruct op as [|counter| |]; try discriminate.
    destruct (counter =? 5); discriminate.
Defined.

Lemma missing_url_skips_row_witness :
  Str.strip (default "" (get_field_value (example_row "  " "[shelf]")
                           "SHELF_TAGS")) = "" ∧
  ∃ tr,
    process_shelf_tags_row example_json_loads example_str_float
      example_str_container example_zip_members example_network reliable
      (example_row "  " "[shelf]")
      "SHELF_TAGS" "SHELF_TAGS_IMAGES_URL" 9 "out" "out/metadata.txt"
    = (tr, Return 9) ∧
    images_written tr = [] ∧ lines_appended tr = [] ∧
    network_events tr = [] ∧
    last (log_records tr) = Some (INFO, MsgSkipNoUrl "SHELF_TAGS").
Proof.
  split; [reflexivity|].
  exact (missing_url_skips_row example_json_loads example_str_float
           example_str_container example_zip_members example_network reliable
           (example_row "  " "[shelf]")
           "SHELF_TAGS" "SHELF_TAGS_IMAGES_URL" 9 "out" "out/metadata.txt"
           eq_refl).
Defined.

Lemma fetch_raises_other_exceptions_witness :
  ∃ tr,
    download_bytes
      (λ url attempt,
         if attempt <? 2 then Fails URLError
         else Fails (OtherException "ValueError"))
      "shelf/ok.zip" 3
    = (tr, Raise (OtherException "ValueError")) ∧
    network_events tr
    = [UrlOpen "shelf/ok.zip" 1; Sleep 2; UrlOpen "shelf/ok.zip" 2].
Proof.
  apply (fetch_raises_other_exceptions
           (λ url attempt,
              if attempt <? 2 then Fails URLError
              else Fails (OtherException "ValueError"))
           "shelf/ok.zip" 3 2 (OtherException "ValueError")).
  - lia.
  - intros j Hj. assert (j = 1) as -> by lia.
    exists URLError. split; reflexivity.
  - reflexivity.
  - reflexivity.
Defined.
